(** * cilantro: the K-means engine of [include/cilantro/kmeans.hpp]

    A shallow embedding of the class template [KMeans<ScalarT, EigenDim,
    DistAdaptor>] and the properties of its two [cluster] overloads and of
    the private engine [cluster_].

    Conventions of the embedding.
    - The scalar type [ScalarT] is a type class ([Scalar]); [float32] is the
      instance of the typedefs [KMeans2D] and [KMeans3D] (IEEE-754 binary32,
      from the standard library's [SpecFloat]).
    - An Eigen matrix is the list of its columns; a column is a list of
      scalars.
    - A [size_t] used as an index or a length is a [nat]; the entries of
      [point_count], which the code decrements, are [N] with the 64-bit
      wrap-around written out.
    - The code is read sequentially (the OpenMP pragmas ignored), which is
      one of the schedules the pragmas allow.  The scan of lines 146-163,
      whose result depends on the order in which its iterations enter the
      critical section, is also modelled for every such order
      ([for_in_order], [repair_body_in_order]).
    - Reading an uninitialised local and indexing a container out of range
      are undefined behaviour in C++; the embedding returns [Undefined].
    - A run is a call of [cluster] on a freshly constructed object
      ([KMeans_ctor]); the fields of the object are modelled, so that a
      second call can be evaluated too. *)

From Stdlib Require Import ZArith NArith List Lia Bool.
From Stdlib Require Import Floats.SpecFloat.
From stdpp Require Import base numbers list.

Set Default Proof Using "Type".

(** ** Results of a call *)

Inductive ub : Type :=
| UninitializedRead   (* a local read before any assignment *)
| OutOfRange          (* [operator[]] or [col()] past the end *)
| ModuloByZero        (* [%] with a zero divisor *)
| EmptyReduction.     (* [maxCoeff()] of an empty expression *)

(** The error vocabulary of the design document.  The header contains no
    [throw]; no function below builds [Raised]. *)
Inductive error : Type :=
| InvalidArgument
| InternalInvariantViolation.

Inductive outcome (A : Type) : Type :=
| Returned (a : A)
| Raised (e : error)
| Undefined (u : ub).

Arguments Returned {A} a.
Arguments Raised {A} e.
Arguments Undefined {A} u.

#[global] Instance outcome_ret : MRet outcome := fun A a => Returned a.
#[global] Instance outcome_bind : MBind outcome := fun A B f m =>
  match m with
  | Returned a => f a
  | Raised e => Raised e
  | Undefined u => Undefined u
  end.

Definition never_raises {A} (o : outcome A) : Prop := ∀ e, o ≠ Raised e.

(** [v[i]] and [v[i] = x] on a [std::vector] or on the columns of a matrix. *)
Definition get {A} (v : list A) (i : nat) : outcome A :=
  match v !! i with
  | Some x => Returned x
  | None => Undefined OutOfRange
  end.

Definition set {A} (v : list A) (i : nat) (x : A) : outcome (list A) :=
  if decide (i < length v) then Returned (<[i := x]> v) else Undefined OutOfRange.

(** Reading a local of type [size_t] that may not have been assigned. *)
Definition read_local (x : option nat) : outcome nat :=
  match x with
  | Some n => Returned n
  | None => Undefined UninitializedRead
  end.

(** ** [size_t] counters *)

Definition size_bits : N := 64.
Definition size_incr (c : N) : N := ((c + 1) mod 2 ^ size_bits)%N.
Definition size_decr (c : N) : N := ((c + (2 ^ size_bits - 1)) mod 2 ^ size_bits)%N.

(** ** Scalars *)

Class Scalar (T : Type) : Type := {
  s_zero : T;                    (* [0] as written by [setZero()] *)
  s_add : T → T → T;
  s_sub : T → T → T;
  s_mul : T → T → T;
  s_ltb : T → T → bool;          (* [a < b]; [a > b] is [s_ltb b a] *)
  s_infinity : T;                (* [std::numeric_limits<ScalarT>::infinity()] *)
  s_minus_one : T;               (* the literal [-1.0] *)
  s_recip : N → T                (* [1.0/c] for a [size_t] count [c] *)
}.

(** [<] on the scalars that satisfy [number] is a strict total preorder:
    what it is on the reals, and on the floating-point values that are not
    NaN. *)
Class ScalarOrder (T : Type) `{Scalar T} (number : T → Prop) : Prop := {
  ltb_irrefl x : number x → s_ltb x x = false;
  ltb_trans x y z : number x → number y → number z →
    s_ltb x y = true → s_ltb y z = true → s_ltb x z = true;
  ltb_below x y z : number x → number y → number z →
    s_ltb x y = true → s_ltb z y = false → s_ltb x z = true;
  number_infinity : number s_infinity
}.

(** ** The scalar of the typedefs: IEEE-754 binary32 *)

Module Float32.

Definition prec : Z := 24.
Definition emax : Z := 128.

(** [double], in which the quotient [1.0/c] is computed before it is
    stored in a [float]. *)
Definition dprec : Z := 53.
Definition demax : Z := 1024.

Definition of_Z (m : Z) : spec_float := binary_normalize prec emax m 0 false.

(** The conversion [double] to [float], to nearest even. *)
Definition of_double (d : spec_float) : spec_float :=
  match d with
  | S754_finite s m e => binary_round prec emax s m e
  | _ => d
  end.

Definition recip (c : N) : spec_float :=
  of_double (SFdiv dprec demax (SFone dprec demax)
               (binary_normalize dprec demax (Z.of_N c) 0 false)).

(** [std::numeric_limits<float>::epsilon()], the default of [tol]. *)
Definition epsilon : spec_float := binary_normalize prec emax 1 (-23) false.

#[global] Instance float32 : Scalar spec_float := {|
  s_zero := S754_zero false;
  s_add := SFadd prec emax;
  s_sub := SFsub prec emax;
  s_mul := SFmul prec emax;
  s_ltb := SFltb;
  s_infinity := S754_infinity false;
  s_minus_one := of_Z (-1);
  s_recip := recip
|}.

(** A point or centroid with integer coordinates. *)
Definition pt (xs : list Z) : list spec_float := of_Z <$> xs.

(** The values [<] orders: all but NaN. *)
Definition number (x : spec_float) : Prop :=
  match x with
  | S754_nan => False
  | _ => True
  end.

(** Inputs of the runs evaluated below. *)
Definition origin_points : list (list spec_float) := pt <$> [[0; 0]; [0; 0]; [0; 0]]%Z.
Definition far_points : list (list spec_float) := pt <$> [[10; 10]; [10; 10]; [10; 10]]%Z.
Definition one_point : list (list spec_float) := pt <$> [[10; 10]]%Z.
Definition line_points : list (list spec_float) :=
  pt <$> [[0; 0]; [1; 0]; [2; 0]; [3; 0]; [4; 0]]%Z.
Definition two_centroids : list (list spec_float) := pt <$> [[0; 0]; [10; 10]]%Z.

(** Two finite points; the squared distance from the second one to either
    of [two_centroids] overflows to [+infinity]. *)
Definition overflow_points : list (list spec_float) :=
  pt <$> [[10; 10]; [3 * 10 ^ 38; 0]]%Z.

(** A sequence of values of [dist(rng)]. *)
Definition draws (i : nat) : nat := 7 * i + 3.

(** The search structure of runs with [use_kd_tree = false], which do not
    query it. *)
Definition no_tree (cs : list (list spec_float)) (p : list spec_float) : list nat := [].

End Float32.

(** ** Loops *)

(** [for (size_t i = lo; i < lo + n; i++) body], the body threading the
    variables it assigns. *)
Fixpoint for_loop {A} (n lo : nat) (body : nat → A → outcome A) (a : A) : outcome A :=
  match n with
  | 0 => Returned a
  | S n' => a' ← body lo a; for_loop n' (S lo) body a'
  end.

Section Engine.

Context {T : Type} `{Scalar T}.

(** A column of coefficients, and a matrix as the list of its columns. *)
Local Abbreviation Vec := (list T).
Local Abbreviation Matrix := (list (list T)).

Definition vadd (a b : Vec) : Vec := zip_with s_add a b.
Definition vsub (a b : Vec) : Vec := zip_with s_sub a b.
Definition vscale (a : Vec) (scale : T) : Vec := (λ x, s_mul x scale) <$> a.
Definition vzero (a : Vec) : Vec := (λ _, s_zero) <$> a.

(** [squaredNorm()]: the sum of the squares, from the first coefficient. *)
Definition squaredNorm (a : Vec) : T :=
  match a with
  | [] => s_zero
  | x :: a' => foldl (λ acc y, s_add acc (s_mul y y)) (s_mul x x) a'
  end.

(** [maxCoeff()]: Eigen's visitor starts from the first coefficient and
    replaces the running value by every strictly greater one. *)
Definition maxCoeff (a : list T) : outcome T :=
  match a with
  | [] => Undefined EmptyReduction
  | x :: a' => Returned (foldl (λ acc y, if s_ltb acc y then y else acc) x a')
  end.

(** The template argument [DistAdaptor]: the two adaptors the code tests
    for with [std::is_same], or any other one, used through [evalMetric]. *)
Inductive DistAdaptor : Type :=
| L2
| L2Simple
| Metric (evalMetric : Vec → Vec → T).

Variable adaptor : DistAdaptor.

(** The nearest-neighbour query [tree.kNNSearch(p, 1, neighbors, distances)]
    on a tree built over the centroids; the result is [neighbors]. *)
Variable kNNSearch : Matrix → Vec → list nat.

(** The compile-time branch of lines 104-110 and 150-156. *)
Definition distance (c p : Vec) : T :=
  match adaptor with
  | L2 | L2Simple => squaredNorm (vsub c p)
  | Metric evalMetric => evalMetric c p
  end.

(** ** The object *)

Record KMeans : Type := mkKMeans {
  data_map_ : Matrix;
  cluster_centroids_ : Matrix;
  cluster_point_indices_ : list (list nat);
  cluster_index_map_ : list nat;
  iteration_count_ : nat
}.

(** The constructor: the three containers are default-constructed. *)
Definition KMeans_ctor (data : Matrix) : KMeans :=
  mkKMeans data [] [] [] 0.

Definition getClusterCentroids (km : KMeans) : Matrix := cluster_centroids_ km.
Definition getClusterPointIndices (km : KMeans) : list (list nat) := cluster_point_indices_ km.
Definition getClusterIndexMap (km : KMeans) : list nat := cluster_index_map_ km.
Definition getNumberOfClusters (km : KMeans) : nat := length (cluster_centroids_ km).
Definition getPerformedIterationsCount (km : KMeans) : nat := iteration_count_ km.

(** ** Assignment step (lines 87-119) *)

(** Lines 102-115: the scan over the clusters [j, j+1, ...] for one point;
    [extr_dist_ind] keeps the value it had when no distance is below
    [extr_dist]. *)
Fixpoint scan_centroids (p : Vec) (cs : Matrix) (j : nat)
    (extr_dist : T) (extr_dist_ind : option nat) : T * option nat :=
  match cs with
  | [] => (extr_dist, extr_dist_ind)
  | c :: cs' =>
      let dist := distance c p in
      if s_ltb dist extr_dist
      then scan_centroids p cs' (S j) dist (Some j)
      else scan_centroids p cs' (S j) extr_dist extr_dist_ind
  end.

(** What the two assignment loops assign: [cluster_index_map_],
    [assignments_unchanged] and the local [extr_dist_ind]. *)
Definition assign_state : Type := list nat * bool * option nat.

(** Lines 100-118: the body for point [i]. *)
Definition assign_brute_body (cs pts : Matrix) (i : nat)
    (st : assign_state) : outcome assign_state :=
  let '(index_map, unchanged, ind) := st in
  p ← get pts i;
  let extr_dist := s_infinity in
  let '(_, ind') := scan_centroids p cs 0 extr_dist ind in
  e ← read_local ind';
  old ← get index_map i;
  index_map' ← set index_map i e;
  Returned (index_map', if decide (old ≠ e) then false else unchanged, ind').

(** Lines 93-97: the body for point [i]. *)
Definition assign_kd_tree_body (cs pts : Matrix) (i : nat)
    (st : assign_state) : outcome assign_state :=
  let '(index_map, unchanged, ind) := st in
  p ← get pts i;
  let neighbors := kNNSearch cs p in
  e ← get neighbors 0;
  old ← get index_map i;
  index_map' ← set index_map i e;
  Returned (index_map', if decide (old ≠ e) then false else unchanged, ind).

(** Lines 85-119: one assignment pass; [assignments_unchanged] starts at
    [true]. *)
Definition assignment_step (use_kd_tree : bool) (cs pts : Matrix)
    (index_map : list nat) (ind : option nat) : outcome assign_state :=
  let num_points := length pts in
  if use_kd_tree
  then for_loop num_points 0 (assign_kd_tree_body cs pts) (index_map, true, ind)
  else for_loop num_points 0 (assign_brute_body cs pts) (index_map, true, ind).

(** ** Centroid update (lines 124-130) *)

Definition setZero (cs : Matrix) : Matrix := vzero <$> cs.

Definition accumulate_body (pts : Matrix) (index_map : list nat) (i : nat)
    (st : Matrix * list N) : outcome (Matrix * list N) :=
  let '(cs, point_count) := st in
  c ← get index_map i;
  p ← get pts i;
  col ← get cs c;
  cs' ← set cs c (vadd col p);
  cnt ← get point_count c;
  point_count' ← set point_count c (size_incr cnt);
  Returned (cs', point_count').

Definition update_centroids (cs pts : Matrix) (index_map : list nat)
    : outcome (Matrix * list N) :=
  let num_clusters := length cs in
  let num_points := length pts in
  for_loop num_points 0 (accumulate_body pts index_map)
    (setZero cs, replicate num_clusters 0%N).

(** ** Empty-cluster repair (lines 132-170) *)

(** Lines 137-140. *)
Definition find_largest (num_clusters : nat) (point_count : list N) : nat :=
  foldl (λ max_ind j,
           if (point_count !!! max_ind <? point_count !!! j)%N then j else max_ind)
        0 (seq 1 (num_clusters - 1)).

(** Lines 147-163: the body for point [j]; it assigns [extr_dist] and
    [extr_dist_ind]. *)
Definition furthest_body (old_centroid : Vec) (max_ind : nat) (pts : Matrix)
    (index_map : list nat) (j : nat) (st : T * option nat) : outcome (T * option nat) :=
  let '(extr_dist, extr_dist_ind) := st in
  c ← get index_map j;
  if decide (c = max_ind) then
    p ← get pts j;
    let dist := distance old_centroid p in
    if s_ltb extr_dist dist then Returned (dist, Some j) else Returned st
  else Returned st.

(** What the repair loop assigns: [cluster_index_map_], [cluster_centroids_]
    (holding the running sums), [point_count] and [extr_dist_ind]. *)
Definition repair_state : Type := list nat * Matrix * list N * option nat.

(** Lines 133-170: the body for cluster [i]. *)
Definition repair_body (num_clusters : nat) (pts : Matrix) (i : nat)
    (st : repair_state) : outcome repair_state :=
  let '(index_map, cs, point_count, ind) := st in
  cnt_i ← get point_count i;
  if decide (cnt_i ≠ 0%N) then Returned st else
  let max_ind := find_largest num_clusters point_count in
  cnt_max ← get point_count max_ind;
  let scale := s_recip cnt_max in
  col_max ← get cs max_ind;
  let old_centroid := vscale col_max scale in
  '(_, ind') ← for_loop (length pts) 0
                 (furthest_body old_centroid max_ind pts index_map) (s_minus_one, ind);
  e ← read_local ind';
  index_map' ← set index_map e i;
  p ← get pts e;
  cs' ← set cs max_ind (vsub col_max p);
  point_count' ← set point_count max_ind (size_decr cnt_max);
  cnt_i' ← get point_count' i;
  point_count'' ← set point_count' i (size_incr cnt_i');
  Returned (index_map', cs', point_count'', ind').

Definition repair_empty_clusters (num_clusters : nat) (pts : Matrix)
    (st : repair_state) : outcome repair_state :=
  for_loop num_clusters 0 (repair_body num_clusters pts) st.

(** *** The scan of lines 146-163 under its pragmas

    [#pragma omp parallel for] distributes the iterations of the scan over
    threads.  Each iteration reads [cluster_index_map_] and [data_map_],
    which the scan does not write, computes [dist] in a private variable,
    and compares and assigns the shared [extr_dist] and [extr_dist_ind]
    inside [#pragma omp critical], that is, one iteration at a time.  A run
    of the scan is therefore the bodies executed in the order [order] in
    which the iterations reach the critical section, a permutation of the
    point indices; the build without OpenMP is the order
    [0, 1, ..., num_points - 1] of [for_loop]. *)
Fixpoint for_in_order {A} (order : list nat) (body : nat → A → outcome A) (a : A)
    : outcome A :=
  match order with
  | [] => Returned a
  | j :: rest => a' ← body j a; for_in_order rest body a'
  end.

(** Lines 133-170 for cluster [i], the scan run in the order [order]. *)
Definition repair_body_in_order (order : list nat) (num_clusters : nat) (pts : Matrix)
    (i : nat) (st : repair_state) : outcome repair_state :=
  let '(index_map, cs, point_count, ind) := st in
  cnt_i ← get point_count i;
  if decide (cnt_i ≠ 0%N) then Returned st else
  let max_ind := find_largest num_clusters point_count in
  cnt_max ← get point_count max_ind;
  let scale := s_recip cnt_max in
  col_max ← get cs max_ind;
  let old_centroid := vscale col_max scale in
  '(_, ind') ← for_in_order order
                 (furthest_body old_centroid max_ind pts index_map) (s_minus_one, ind);
  e ← read_local ind';
  index_map' ← set index_map e i;
  p ← get pts e;
  cs' ← set cs max_ind (vsub col_max p);
  point_count' ← set point_count max_ind (size_decr cnt_max);
  cnt_i' ← get point_count' i;
  point_count'' ← set point_count' i (size_incr cnt_i');
  Returned (index_map', cs', point_count'', ind').

(** ** New centroids (lines 172-176) *)

Definition divide_body (point_count : list N) (i : nat) (cs : Matrix) : outcome Matrix :=
  cnt ← get point_count i;
  let scale := s_recip cnt in
  col ← get cs i;
  set cs i (vscale col scale).

Definition compute_new_centroids (cs : Matrix) (point_count : list N) : outcome Matrix :=
  for_loop (length cs) 0 (divide_body point_count) cs.

(** ** Convergence of the centroids (line 181) *)

Definition centroids_converged (tol tol_sq : T) (cs centroids_old : Matrix) : outcome bool :=
  if s_ltb s_zero tol then
    m ← maxCoeff (squaredNorm <$> zip_with vsub cs centroids_old);
    Returned (s_ltb m tol_sq)
  else Returned false.

(** ** The loop (lines 84-182) *)

(** Lines 122-178, entered when the assignment pass changed something. *)
Definition update_step (km : KMeans) (ind : option nat) : outcome (KMeans * list N * option nat) :=
  let num_clusters := length (cluster_centroids_ km) in
  '(sums, point_count) ←
     update_centroids (cluster_centroids_ km) (data_map_ km) (cluster_index_map_ km);
  '(index_map, sums', point_count', ind') ←
     repair_empty_clusters num_clusters (data_map_ km)
       (cluster_index_map_ km, sums, point_count, ind);
  cs ← compute_new_centroids sums' point_count';
  Returned (mkKMeans (data_map_ km) cs (cluster_point_indices_ km) index_map
              (S (iteration_count_ km)), point_count', ind').

(** [while (iteration_count_ < max_iter)], with [remaining] the difference
    [max_iter - iteration_count_]. *)
Fixpoint while_loop (remaining : nat) (tol tol_sq : T) (use_kd_tree : bool)
    (km : KMeans) (ind : option nat) : outcome (KMeans * option nat) :=
  match remaining with
  | 0 => Returned (km, ind)
  | S remaining' =>
      '(index_map, assignments_unchanged, ind1) ←
         assignment_step use_kd_tree (cluster_centroids_ km) (data_map_ km)
           (cluster_index_map_ km) ind;
      let km1 := mkKMeans (data_map_ km) (cluster_centroids_ km)
                   (cluster_point_indices_ km) index_map (iteration_count_ km) in
      if (assignments_unchanged : bool) then Returned (km1, ind1) else
      let centroids_old := cluster_centroids_ km1 in
      '(km2, _, ind2) ← update_step km1 ind1;
      converged ← centroids_converged tol tol_sq (cluster_centroids_ km2) centroids_old;
      if (converged : bool) then Returned (km2, ind2)
      else while_loop remaining' tol tol_sq use_kd_tree km2 ind2
  end.

(** ** Buckets (lines 184-187) *)

Definition bucket_body (index_map : list nat) (i : nat)
    (buckets : list (list nat)) : outcome (list (list nat)) :=
  c ← get index_map i;
  bucket ← get buckets c;
  set buckets c (bucket ++ [i]).

(** ** [cluster_] (lines 65-188) *)

Definition cluster_ (max_iter : nat) (tol : T) (use_kd_tree : bool)
    (km : KMeans) : outcome KMeans :=
  let num_clusters := length (cluster_centroids_ km) in
  let num_points := length (data_map_ km) in
  let tol_sq := s_mul tol tol in
  let km0 := mkKMeans (data_map_ km) (cluster_centroids_ km) (cluster_point_indices_ km)
               (resize num_points 0 (cluster_index_map_ km)) 0 in
  '(km1, _) ← while_loop max_iter tol tol_sq use_kd_tree km0 None;
  buckets ← for_loop num_points 0 (bucket_body (cluster_index_map_ km1))
               (resize num_clusters [] (cluster_point_indices_ km1));
  Returned (mkKMeans (data_map_ km1) (cluster_centroids_ km1) buckets
              (cluster_index_map_ km1) (iteration_count_ km1)).

(** ** The two public overloads (lines 19-44) *)

(** [cluster(centroids, max_iter, tol, use_kd_tree)]. *)
Definition cluster_with_centroids (centroids : Matrix) (max_iter : nat) (tol : T)
    (use_kd_tree : bool) (km : KMeans) : outcome KMeans :=
  cluster_ max_iter tol use_kd_tree
    (mkKMeans (data_map_ km) centroids (cluster_point_indices_ km)
       (cluster_index_map_ km) (iteration_count_ km)).

(** Lines 35-40: the body for centroid [i].  [rand i] is the value the
    [i]-th call [dist(rng)] returns. *)
Definition pick_body (rand : nat → nat) (data : Matrix) (i : nat)
    (st : Matrix * list nat * nat) : outcome (Matrix * list nat * nat) :=
  let '(cs, range, prev_size) := st in
  if decide (prev_size = 0) then Undefined ModuloByZero else
  let rand_ind := rand i mod prev_size in
  r ← get range rand_ind;
  p ← get data r;
  cs' ← set cs i p;
  let prev_size' := prev_size - 1 in
  last ← get range prev_size';
  range' ← set range rand_ind last;
  range'' ← set range' prev_size' r;
  Returned (cs', range'', prev_size').

(** [cluster(num_clusters, max_iter, tol, use_kd_tree)].  [resize] leaves
    the coefficients of the centroid matrix unspecified; the loop assigns
    every column before [cluster_] reads it, and the empty column stands for
    one not yet assigned. *)
Definition cluster (rand : nat → nat) (num_clusters max_iter : nat) (tol : T)
    (use_kd_tree : bool) (km : KMeans) : outcome KMeans :=
  let data := data_map_ km in
  let cols := if decide (length data < num_clusters) then length data else num_clusters in
  let cs0 : Matrix := replicate cols [] in
  let range := seq 0 (length data) in
  '(cs, _, _) ← for_loop cols 0 (pick_body rand data) (cs0, range, length range);
  cluster_ max_iter tol use_kd_tree
    (mkKMeans data cs (cluster_point_indices_ km) (cluster_index_map_ km)
       (iteration_count_ km)).

(** ** Notions the properties are stated with *)

(** Cluster [j] is the nearest centroid of [p], and the first such one in
    a left-to-right scan: no centroid is strictly closer, and [j] is
    strictly closer than every centroid before it. *)
Definition nearest_lowest (cs : Matrix) (p : Vec) (j : nat) : Prop :=
  ∃ c, cs !! j = Some c ∧
    (∀ k c', cs !! k = Some c' → s_ltb (distance c' p) (distance c p) = false) ∧
    (∀ k c', k < j → cs !! k = Some c' → s_ltb (distance c p) (distance c' p) = true).

(** Every index below [num_points] is in bucket 0 of [num_clusters] buckets. *)
Definition all_in_bucket_zero (num_clusters num_points : nat) : list (list nat) :=
  match num_clusters with
  | 0 => []
  | S k => seq 0 num_points :: replicate k []
  end.

(** The buckets are an exact partition of the indices below [num_points]. *)
Definition exact_partition (num_points : nat) (buckets : list (list nat)) : Prop :=
  (∀ i, i < num_points →
     ∃ b bucket, buckets !! b = Some bucket ∧ i ∈ bucket ∧
       ∀ b' bucket', buckets !! b' = Some bucket' → i ∈ bucket' → b' = b) ∧
  (∀ bucket, bucket ∈ buckets → NoDup bucket ∧ ∀ i, i ∈ bucket → i < num_points) ∧
  sum_list (length <$> buckets) = num_points.

(** What the scan of lines 102-115 has established after the centroids
    [seen]: nothing selected yet, or the nearest of [seen]. *)
Definition scan_inv (p : Vec) (ind0 : option nat) (seen : Matrix)
    (extr_dist : T) (extr_dist_ind : option nat) : Prop :=
  (extr_dist = s_infinity ∧ extr_dist_ind = ind0 ∧
   ∀ c', c' ∈ seen → s_ltb (distance c' p) s_infinity = false) ∨
  (∃ r c, extr_dist_ind = Some r ∧ seen !! r = Some c ∧ extr_dist = distance c p ∧
   (∀ k c', seen !! k = Some c' → s_ltb (distance c' p) (distance c p) = false) ∧
   (∀ k c', k < r → seen !! k = Some c' → s_ltb (distance c p) (distance c' p) = true)).

(** The sum of the point counts. *)
Definition sumN (point_count : list N) : N := foldr N.add 0%N point_count.

(** What holds of the sums and counts from the end of lines 127-130 to the
    end of the repair loop, for [num_points] points below [2^64]: the
    counts add up to the number of points, and a cluster whose count is 0
    still has the sum [setZero] gave it. *)
Definition repair_inv (cs0 : Matrix) (num_points : nat) (st : repair_state) : Prop :=
  length st.1.1.2 = length cs0 ∧ length st.1.2 = length cs0 ∧
  sumN st.1.2 = N.of_nat num_points ∧
  ∀ k, st.1.2 !! k = Some 0%N → st.1.1.2 !! k = setZero cs0 !! k.

(** Cluster [i] has been repaired: one point, and the sum [setZero] gave. *)
Definition repaired (cs0 : Matrix) (i : nat) (st : repair_state) : Prop :=
  st.1.2 !! i = Some 1%N ∧ st.1.1.2 !! i = setZero cs0 !! i.

(** The point indices below [num_points] that [index_map] gives to
    cluster [c], in increasing order. *)
Definition members (index_map : list nat) (c num_points : nat) : list nat :=
  filter (λ i, index_map !! i = Some c) (seq 0 num_points).

(** The sum lines 127-130 build for a cluster: the coordinates of the
    points [idxs], added in that order to [z]. *)
Definition sum_of_points (pts : Matrix) (z : Vec) (idxs : list nat) : Vec :=
  foldl (λ acc i, vadd acc (pts !!! i)) z idxs.

(** The cluster an assignment pass selects for a point: the first
    neighbour the search structure returns, or what the scan of lines
    101-115 leaves in [extr_dist_ind] when it starts unassigned. *)
Definition selected (use_kd_tree : bool) (cs : Matrix) (p : Vec) : option nat :=
  if use_kd_tree then kNNSearch cs p !! 0
  else (scan_centroids p cs 0 s_infinity None).2.

(** Point [e] is one of the points of cluster [max_ind] furthest from
    [centre]: none of them is strictly further. *)
Definition furthest (pts : Matrix) (index_map : list nat) (max_ind : nat)
    (centre : Vec) (e : nat) : Prop :=
  ∃ p, pts !! e = Some p ∧ index_map !! e = Some max_ind ∧
    ∀ j q, pts !! j = Some q → index_map !! j = Some max_ind →
      s_ltb (distance centre p) (distance centre q) = false.

(** Point [e] is strictly further from [centre] than every point of cluster
    [max_ind] that comes before it in [order]. *)
Definition first_to_arrive (order : list nat) (pts : Matrix) (index_map : list nat)
    (max_ind : nat) (centre : Vec) (e : nat) : Prop :=
  ∃ p before after, order = before ++ e :: after ∧ pts !! e = Some p ∧
    ∀ j q, j ∈ before → pts !! j = Some q → index_map !! j = Some max_ind →
      s_ltb (distance centre q) (distance centre p) = true.

(** What the scan of lines 147-163 has established after the iterations
    [seen]: either nothing was selected, and no point of the cluster among
    them is above [-1.0]; or the selection [e] is one of them, no point of
    the cluster among them is strictly further, and [e] is strictly further
    than those before it. *)
Definition furthest_inv (centre : Vec) (max_ind : nat) (pts : Matrix)
    (index_map : list nat) (ind0 : option nat) (seen : list nat)
    (st : T * option nat) : Prop :=
  (st = (s_minus_one, ind0) ∧
   ∀ j q, j ∈ seen → pts !! j = Some q → index_map !! j = Some max_ind →
     s_ltb s_minus_one (distance centre q) = false) ∨
  (∃ e p before after, st = (distance centre p, Some e) ∧
     seen = before ++ e :: after ∧
     pts !! e = Some p ∧ index_map !! e = Some max_ind ∧
     s_ltb s_minus_one (distance centre p) = true ∧
     (∀ j q, j ∈ seen → pts !! j = Some q → index_map !! j = Some max_ind →
        s_ltb (distance centre p) (distance centre q) = false) ∧
     (∀ j q, j ∈ before → pts !! j = Some q → index_map !! j = Some max_ind →
        s_ltb (distance centre q) (distance centre p) = true)).

(** One iteration of the loop run to its end (lines 85-178): the assignment
    pass and the update that follows it.  The centroids the pass and
    [centroids_old] see are those of [km]. *)
Definition iteration (use_kd_tree : bool) (km : KMeans) (ind : option nat)
    : outcome (KMeans * option nat) :=
  '(index_map, _, ind1) ←
     assignment_step use_kd_tree (cluster_centroids_ km) (data_map_ km)
       (cluster_index_map_ km) ind;
  '(km', _, ind') ←
     update_step (mkKMeans (data_map_ km) (cluster_centroids_ km)
                    (cluster_point_indices_ km) index_map (iteration_count_ km)) ind1;
  Returned (km', ind').

(** The state after [k] iterations from [km]. *)
Fixpoint iterations (k : nat) (use_kd_tree : bool) (km : KMeans) (ind : option nat)
    : outcome (KMeans * option nat) :=
  match k with
  | 0 => Returned (km, ind)
  | S k' => '(km', ind') ← iteration use_kd_tree km ind;
            iterations k' use_kd_tree km' ind'
  end.

(** * Properties *)

(** ** The result monad *)

Lemma bind_Returned {A B} (m : outcome A) (f : A → outcome B) (b : B) :
  m ≫= f = Returned b ↔ ∃ a, m = Returned a ∧ f a = Returned b.
Proof.
  destruct m as [a|e|u]; simpl; split.
  - intros Hf. by exists a.
  - by intros (? & [= <-] & Hf).
  - done.
  - by intros (? & [=] & _).
  - done.
  - by intros (? & [=] & _).
Qed.

Lemma get_Returned {A} (v : list A) (i : nat) (x : A) :
  get v i = Returned x ↔ v !! i = Some x.
Proof. unfold get. destruct (v !! i); split; congruence. Qed.

Lemma get_lt {A} (v : list A) (i : nat) :
  i < length v → ∃ x, get v i = Returned x ∧ v !! i = Some x.
Proof.
  intros Hi. destruct (lookup_lt_is_Some_2 v i Hi) as [x Hx].
  exists x. by rewrite get_Returned.
Qed.

Lemma get_ge {A} (v : list A) (i : nat) :
  length v ≤ i → get v i = Undefined OutOfRange.
Proof. intros Hi. unfold get. by rewrite lookup_ge_None_2. Qed.

Lemma set_Returned {A} (v v' : list A) (i : nat) (x : A) :
  set v i x = Returned v' ↔ i < length v ∧ v' = <[i := x]> v.
Proof.
  unfold set. case_decide; split.
  - intros [= <-]. done.
  - by intros [_ ->].
  - done.
  - intros [? _]. lia.
Qed.

Lemma set_lt {A} (v : list A) (i : nat) (x : A) :
  i < length v → set v i x = Returned (<[i := x]> v).
Proof. intros Hi. by rewrite set_Returned. Qed.

Lemma read_local_Returned (x : option nat) (n : nat) :
  read_local x = Returned n ↔ x = Some n.
Proof. destruct x; simpl; split; congruence. Qed.

(** Inversion of a computation that returned. *)
Ltac inv_outcome :=
  repeat match goal with
  | H : Returned _ = Returned _ |- _ => injection H as H; try subst
  | H : (_, _) = (_, _) |- _ => injection H as ? H; try subst
  | H : Undefined _ = Returned _ |- _ => discriminate H
  | H : Raised _ = Returned _ |- _ => discriminate H
  | H : mret _ = Returned _ |- _ => change (mret ?a) with (Returned a) in H
  | H : _ ≫= _ = Returned _ |- _ =>
      let a := fresh "a" in let Ha := fresh "Ha" in
      apply bind_Returned in H as (a & Ha & H)
  | H : get _ _ = Returned _ |- _ => apply get_Returned in H
  | H : set _ _ _ = Returned _ |- _ =>
      let Hlt := fresh "Hlt" in apply set_Returned in H as [Hlt ->]
  | H : read_local _ = Returned _ |- _ => apply read_local_Returned in H; try subst
  | H : context [match ?x with (_, _) => _ end] |- _ => is_var x; destruct x
  end.

(** ** The loop combinator *)

(** The invariant rule of [for_loop]. *)
Lemma for_loop_inv {A} (P : nat → A → Prop) n lo body (a a' : A) :
  P lo a →
  (∀ i x x', lo ≤ i < lo + n → P i x → body i x = Returned x' → P (S i) x') →
  for_loop n lo body a = Returned a' →
  P (lo + n) a'.
Proof.
  revert lo a. induction n as [|n IH]; intros lo a H0 Hstep Hrun; simpl in Hrun.
  - inv_outcome. by rewrite Nat.add_0_r.
  - inv_outcome. rewrite Nat.add_succ_r, <- Nat.add_succ_l.
    apply (IH (S lo) a0); [|intros i x x' Hi; apply Hstep; lia|done].
    apply (Hstep lo a a0); [lia|done|done].
Qed.

(** Its total version: a body that returns under the invariant makes the
    loop return. *)
Lemma for_loop_total {A} (P : nat → A → Prop) n lo body (a : A) :
  P lo a →
  (∀ i x, lo ≤ i < lo + n → P i x → ∃ x', body i x = Returned x' ∧ P (S i) x') →
  ∃ a', for_loop n lo body a = Returned a' ∧ P (lo + n) a'.
Proof.
  revert lo a. induction n as [|n IH]; intros lo a H0 Hstep; simpl.
  - exists a. by rewrite Nat.add_0_r.
  - destruct (Hstep lo a) as (x' & -> & Hx'); [lia|done|]. simpl.
    rewrite Nat.add_succ_r, <- Nat.add_succ_l.
    apply IH; [done|]. intros i x Hi. apply Hstep. lia.
Qed.

Lemma for_loop_split {A} n m lo body (a : A) :
  for_loop (n + m) lo body a = for_loop n lo body a ≫= for_loop m (lo + n) body.
Proof.
  revert lo a. induction n as [|n IH]; intros lo a; simpl.
  - by rewrite Nat.add_0_r.
  - destruct (body lo a) as [x| |]; simpl; [|done..].
    by rewrite IH, Nat.add_succ_r.
Qed.

(** A loop whose first body is undefined is undefined. *)
Lemma for_loop_first_Undefined {A} n lo body (a : A) u :
  0 < n → body lo a = Undefined u → for_loop n lo body a = Undefined u.
Proof. destruct n; [lia|]. intros _ Hb. simpl. by rewrite Hb. Qed.

(** ** The assignment step and its flag *)

(** Both loop bodies end in lines 116-117 (95-96): they store some cluster
    [e] at [i] and clear the flag when [e] is not the stored value. *)
Lemma assign_body_shape (use_kd_tree : bool) cs pts i index_map unchanged ind st' :
  (if use_kd_tree then assign_kd_tree_body cs pts i (index_map, unchanged, ind)
   else assign_brute_body cs pts i (index_map, unchanged, ind)) = Returned st' →
  ∃ e old ind', index_map !! i = Some old ∧
    st' = (<[i := e]> index_map, if decide (old ≠ e) then false else unchanged, ind').
Proof.
  destruct use_kd_tree; simpl; intros Hb.
  - unfold assign_kd_tree_body in Hb. inv_outcome. by eexists _, _, _.
  - unfold assign_brute_body in Hb. inv_outcome.
    destruct (scan_centroids _ _ _ _ _) as [d ind']. inv_outcome. by eexists _, _, _.
Qed.

Lemma assignment_step_unfold (use_kd_tree : bool) cs pts index_map ind :
  assignment_step use_kd_tree cs pts index_map ind =
  for_loop (length pts) 0
    (λ i st, if use_kd_tree then assign_kd_tree_body cs pts i st
             else assign_brute_body cs pts i st) (index_map, true, ind).
Proof. unfold assignment_step. by destruct use_kd_tree. Qed.

(** The flag is [true] exactly when the pass left the map as it was. *)
Lemma assignment_step_flag use_kd_tree cs pts index_map ind index_map' unchanged ind' :
  assignment_step use_kd_tree cs pts index_map ind = Returned (index_map', unchanged, ind') →
  length index_map' = length index_map ∧
  (∀ k, length pts ≤ k → index_map' !! k = index_map !! k) ∧
  (unchanged = true ↔ index_map' = index_map).
Proof.
  rewrite assignment_step_unfold. intros Hrun.
  pose (P := λ (i : nat) (st : assign_state),
    length st.1.1 = length index_map ∧
    (∀ k, i ≤ k → st.1.1 !! k = index_map !! k) ∧
    (st.1.2 = true ↔ ∀ k, k < i → st.1.1 !! k = index_map !! k)).
  apply (for_loop_inv P) in Hrun.
  - destruct Hrun as (Hlen & Hrest & Hflag); simpl in *.
    split; [done|]. split; [done|]. rewrite Hflag. split.
    + intros Hlow. apply list_eq. intros k.
      destruct (decide (k < length pts)); [by apply Hlow|apply Hrest; lia].
    + by intros ->.
  - unfold P; simpl. split; [done|]. split; [done|]. split; [|done]. intros _ k. lia.
  - intros i [[m u] d] st' _ (Hlen & Hrest & Hflag) Hb; simpl in *.
    apply assign_body_shape in Hb as (e & old & d' & Hold & ->). unfold P; simpl.
    rewrite length_insert. split; [done|]. split.
    + intros k Hk. rewrite list_lookup_insert_ne by lia. apply Hrest. lia.
    + assert (Hi : i < length m) by (by eapply lookup_lt_Some).
      rewrite (Hrest i) in Hold by lia.
      case_decide as Hne.
      * split; [done|]. intros Hall. specialize (Hall i (Nat.lt_succ_diag_r i)).
        rewrite list_lookup_insert_eq in Hall by done. congruence.
      * assert (old = e) as -> by (destruct (decide (old = e)); [done|contradiction]).
        rewrite Hflag. split.
        -- intros Hall k Hk. destruct (decide (k = i)) as [->|].
           ++ by rewrite list_lookup_insert_eq.
           ++ rewrite list_lookup_insert_ne by done. apply Hall. lia.
        -- intros Hall k Hk. specialize (Hall k).
           rewrite list_lookup_insert_ne in Hall by lia. apply Hall. lia.
Qed.

(** ** Runs that perform no iteration *)

Lemma all_in_bucket_zero_no_points num_clusters :
  all_in_bucket_zero num_clusters 0 = replicate num_clusters [].
Proof. by destruct num_clusters. Qed.

(** Lines 184-187 on a map of zeros: every index goes to bucket 0. *)
Lemma buckets_of_zero_map num_clusters num_points :
  0 < num_clusters ∨ num_points = 0 →
  for_loop num_points 0 (bucket_body (replicate num_points 0)) (replicate num_clusters [])
  = Returned (all_in_bucket_zero num_clusters num_points).
Proof.
  intros [Hk| ->]; [|by rewrite all_in_bucket_zero_no_points].
  destruct num_clusters as [|k]; [lia|]. simpl.
  pose (P := λ (i : nat) (b : list (list nat)), b = seq 0 i :: replicate k []).
  destruct (for_loop_total P num_points 0 (bucket_body (replicate num_points 0))
              ([] :: replicate k [])) as (b & -> & Hb); [done| |by rewrite Hb].
  intros i b [_ Hi] ->. unfold bucket_body. simpl in Hi.
  destruct (get_lt (replicate num_points 0) i) as (c & -> & Hc);
    [by rewrite length_replicate|].
  rewrite lookup_replicate_2 in Hc by done. injection Hc as <-. simpl.
  eexists. split; [done|]. unfold P. by rewrite seq_S.
Qed.

(** With [max_iter = 0] the loop body is not entered and the buckets are
    built from the map [resize] has just filled with zeros. *)
Lemma cluster__no_iteration data cs n tol use_kd_tree :
  cs ≠ [] ∨ data = [] →
  cluster_ 0 tol use_kd_tree (mkKMeans data cs [] [] n)
  = Returned (mkKMeans data cs (all_in_bucket_zero (length cs) (length data))
                (replicate (length data) 0) 0).
Proof.
  intros Hk. unfold cluster_. simpl. rewrite !resize_nil.
  rewrite buckets_of_zero_map; [done|].
  destruct Hk as [Hk| ->]; [left; destruct cs; [done|simpl; lia]|by right].
Qed.

(** The first brute-force pass over at least one point returns only when
    there is a centroid: with none, [extr_dist_ind] is read unassigned. *)
Lemma first_brute_pass_needs_centroid cs p pts index_map st' :
  assignment_step false cs (p :: pts) index_map None = Returned st' → cs ≠ [].
Proof.
  intros Hrun ->. unfold assignment_step in Hrun. simpl in Hrun. discriminate Hrun.
Qed.

Lemma while_loop_break remaining tol tol_sq use_kd_tree km ind index_map ind' :
  assignment_step use_kd_tree (cluster_centroids_ km) (data_map_ km)
    (cluster_index_map_ km) ind = Returned (index_map, true, ind') →
  while_loop (S remaining) tol tol_sq use_kd_tree km ind
  = Returned (mkKMeans (data_map_ km) (cluster_centroids_ km) (cluster_point_indices_ km)
                index_map (iteration_count_ km), ind').
Proof. intros Hpass. simpl. by rewrite Hpass. Qed.

(** C9.  When an assignment pass returns the stored map as it was, its flag
    says so and the loop ends in that iteration: the object, and with it
    the centroids and the iteration counter, is the one the pass started
    from; lines 122-181 are not executed. *)
Theorem unchanged_assignments_end_the_loop
    remaining tol tol_sq use_kd_tree km ind unchanged ind' :
  assignment_step use_kd_tree (cluster_centroids_ km) (data_map_ km)
    (cluster_index_map_ km) ind = Returned (cluster_index_map_ km, unchanged, ind') →
  unchanged = true ∧
  ∃ km', while_loop (S remaining) tol tol_sq use_kd_tree km ind = Returned (km', ind') ∧
    cluster_centroids_ km' = cluster_centroids_ km ∧
    iteration_count_ km' = iteration_count_ km ∧
    km' = km.
Proof.
  intros Hpass.
  assert (unchanged = true) as ->.
  { by apply assignment_step_flag in Hpass as (_ & _ & ->). }
  split; [done|]. exists km. rewrite (while_loop_break _ _ _ _ _ _ _ _ Hpass).
  by destruct km.
Qed.

(** A pass with the search structure over at least one point returns only
    when the query of the first point has a first neighbour. *)
Lemma first_kd_tree_pass_neighbour cs p pts index_map ind st' :
  assignment_step true cs (p :: pts) index_map ind = Returned st' →
  ∃ e, kNNSearch cs p !! 0 = Some e.
Proof.
  unfold assignment_step. simpl. intros Hrun.
  apply bind_Returned in Hrun as (st1 & Hb & _).
  unfold assign_kd_tree_body in Hb. simpl in Hb. inv_outcome. by eexists.
Qed.

(** C2.  On a freshly constructed object [resize] fills the map with
    zeros.  If the first assignment pass then assigns every point to
    cluster 0 (the search structure, when it is used, answering with
    indices of centroids), its flag reports no change, the loop ends in its
    first iteration, lines 122-181 are not executed, and the run returns
    the initial centroids with an iteration count of 0 (and every index in
    bucket 0). *)
Theorem first_pass_all_zero_ends_run
    data cs n max_iter tol use_kd_tree index_map' unchanged ind' :
  (use_kd_tree = true → ∀ p j, kNNSearch cs p !! 0 = Some j → j < length cs) →
  assignment_step use_kd_tree cs data (replicate (length data) 0) None
    = Returned (index_map', unchanged, ind') →
  (∀ i, i < length data → index_map' !! i = Some 0) →
  resize (length data) 0 (cluster_index_map_ (mkKMeans data cs [] [] n))
    = replicate (length data) 0 ∧
  unchanged = true ∧
  (∀ remaining tol_sq,
     while_loop (S remaining) tol tol_sq use_kd_tree
       (mkKMeans data cs [] (replicate (length data) 0) 0) None
     = Returned (mkKMeans data cs [] (replicate (length data) 0) 0, ind')) ∧
  cluster_ max_iter tol use_kd_tree (mkKMeans data cs [] [] n)
  = Returned (mkKMeans data cs (all_in_bucket_zero (length cs) (length data))
                (replicate (length data) 0) 0).
Proof.
  intros Hrange Hpass Hzero.
  assert (Hk : cs ≠ [] ∨ data = []).
  { destruct data as [|p pts]; [by right|left]. destruct use_kd_tree.
    - destruct (first_kd_tree_pass_neighbour _ _ _ _ _ _ Hpass) as [e He].
      specialize (Hrange eq_refl p e He). destruct cs; [simpl in Hrange; lia|done].
    - by eapply first_brute_pass_needs_centroid. }
  assert (index_map' = replicate (length data) 0) as ->.
  { apply assignment_step_flag in Hpass as (Hlen & _ & _).
    rewrite length_replicate in Hlen. apply list_eq. intros i.
    destruct (decide (i < length data)) as [Hi|Hi].
    - by rewrite Hzero, lookup_replicate_2.
    - rewrite !lookup_ge_None_2; [done|rewrite length_replicate; lia|lia]. }
  assert (unchanged = true) as ->.
  { by apply assignment_step_flag in Hpass as (_ & _ & ->). }
  assert (Hloop : ∀ remaining tol_sq,
     while_loop (S remaining) tol tol_sq use_kd_tree
       (mkKMeans data cs [] (replicate (length data) 0) 0) None
     = Returned (mkKMeans data cs [] (replicate (length data) 0) 0, ind')).
  { intros remaining tol_sq.
    by rewrite (while_loop_break remaining tol tol_sq use_kd_tree
                  (mkKMeans data cs [] (replicate (length data) 0) 0) None _ _ Hpass). }
  split; [apply resize_nil|]. split; [done|]. split; [done|].
  destruct max_iter as [|remaining]; [by apply cluster__no_iteration|].
  unfold cluster_. cbn [data_map_ cluster_centroids_ cluster_point_indices_
    cluster_index_map_ iteration_count_].
  rewrite resize_nil, Hloop. cbn [mbind outcome_bind data_map_ cluster_centroids_
    cluster_point_indices_ cluster_index_map_ iteration_count_].
  rewrite resize_nil, buckets_of_zero_map; [done|].
  destruct Hk as [Hk| ->]; [left; destruct cs; [done|simpl; lia]|by right].
Qed.

(** ** The initialiser of [cluster(num_clusters, ...)] (lines 26-40) *)

(** The selection loop returns: it draws among the [prev_size] eligible
    entries of [range], which are indices of points. *)
Lemma pick_centroids_total rand data cols :
  cols ≤ length data →
  ∃ cs range,
    for_loop cols 0 (pick_body rand data)
      (replicate cols [], seq 0 (length data), length (seq 0 (length data)))
    = Returned (cs, range, length data - cols) ∧ length cs = cols.
Proof.
  intros Hcols.
  pose (P := λ (i : nat) (st : Matrix * list nat * nat),
    length st.1.1 = cols ∧ length st.1.2 = length data ∧ st.2 = length data - i ∧
    Forall (λ r, r < length data) st.1.2).
  destruct (for_loop_total P cols 0 (pick_body rand data)
              (replicate cols [], seq 0 (length data), length (seq 0 (length data))))
    as ([[cs range] prev] & Hrun & Hlen & _ & Hprev & _).
  - unfold P; simpl. rewrite length_replicate, length_seq.
    repeat split; [lia|]. apply Forall_forall. intros r Hr%elem_of_seq. lia.
  - intros i [[cs range] prev] [_ Hi] HP. unfold P in HP. simpl in HP, Hi.
    destruct HP as (Hcs & Hrange & -> & Hall).
    unfold pick_body. case_decide; [lia|].
    assert (Hrand : rand i mod (length data - i) < length data - i)
      by (apply Nat.mod_upper_bound; lia).
    destruct (get_lt range (rand i mod (length data - i))) as (r & -> & Hr); [lia|].
    cbn [mbind outcome_bind].
    assert (Hrlt : r < length data).
    { eapply (proj1 (Forall_lookup _ _) Hall). exact Hr. }
    destruct (get_lt data r Hrlt) as (p & -> & _).
    cbn [mbind outcome_bind]. rewrite (set_lt cs i) by lia. cbn [mbind outcome_bind].
    destruct (get_lt range (length data - i - 1)) as (last & -> & Hlast); [lia|].
    assert (Hlastlt : last < length data).
    { eapply (proj1 (Forall_lookup _ _) Hall). exact Hlast. }
    cbn [mbind outcome_bind]. rewrite (set_lt range) by lia. cbn [mbind outcome_bind].
    rewrite set_lt by (rewrite length_insert; lia). cbn [mbind outcome_bind].
    eexists. split; [done|]. unfold P; simpl. rewrite !length_insert.
    repeat split; [done|done|lia|].
    apply Forall_insert; [apply Forall_insert|]; done.
  - simpl in *. subst prev. by exists cs, range.
Qed.

(** C10 (amended).  Called with [max_iter = 0] on a freshly constructed object and
    with at least one centroid in use, either overload returns: the loop
    body is not entered, the iteration count is 0, and the bucket loop runs
    over the map of zeros [resize] produced, putting every point index
    into bucket 0. *)
Theorem max_iter_zero_completes data tol use_kd_tree :
  (∀ cs, cs ≠ [] →
     cluster_with_centroids cs 0 tol use_kd_tree (KMeans_ctor data)
     = Returned (mkKMeans data cs (all_in_bucket_zero (length cs) (length data))
                   (replicate (length data) 0) 0)) ∧
  (∀ rand num_clusters, 0 < num_clusters →
     ∃ cs, length cs = num_clusters `min` length data ∧
       cluster rand num_clusters 0 tol use_kd_tree (KMeans_ctor data)
       = Returned (mkKMeans data cs (all_in_bucket_zero (length cs) (length data))
                     (replicate (length data) 0) 0)).
Proof.
  split.
  - intros cs Hcs. unfold cluster_with_centroids, KMeans_ctor. simpl.
    apply cluster__no_iteration. by left.
  - intros rand num_clusters Hk. unfold cluster, KMeans_ctor.
    cbn [data_map_ cluster_centroids_ cluster_point_indices_ cluster_index_map_
         iteration_count_].
    set (cols := if decide (length data < num_clusters) then length data else num_clusters).
    assert (Hcols : cols = num_clusters `min` length data)
      by (unfold cols; case_decide; lia).
    destruct (pick_centroids_total rand data cols) as (cs & range & Hrun & Hlen); [lia|].
    exists cs. split; [lia|]. rewrite Hrun.
    cbn [mbind outcome_bind].
    apply cluster__no_iteration.
    destruct data as [|p pts]; [by right|left].
    destruct cs; [simpl in *; lia|done].
Qed.

(** ** The brute-force assignment *)

Section BruteForce.

Context (number : T → Prop) `{!ScalarOrder T number}.

Lemma scan_inv_number p ind0 seen extr_dist extr_dist_ind :
  (∀ c, c ∈ seen → number (distance c p)) →
  scan_inv p ind0 seen extr_dist extr_dist_ind → number extr_dist.
Proof using Type*.
  intros Hnum [(-> & _)|(r & c & _ & Hr & -> & _)]; [apply number_infinity|].
  apply Hnum. by eapply list_elem_of_lookup_2.
Qed.

Lemma scan_inv_step p ind0 seen c extr_dist extr_dist_ind :
  (∀ c', c' ∈ seen ++ [c] → number (distance c' p)) →
  scan_inv p ind0 seen extr_dist extr_dist_ind →
  if s_ltb (distance c p) extr_dist
  then scan_inv p ind0 (seen ++ [c]) (distance c p) (Some (length seen))
  else scan_inv p ind0 (seen ++ [c]) extr_dist extr_dist_ind.
Proof using Type*.
  intros Hnum Hinv.
  assert (Hnc : number (distance c p)).
  { apply Hnum, elem_of_app. right. by apply list_elem_of_singleton. }
  assert (Hns : ∀ c', c' ∈ seen → number (distance c' p)).
  { intros c' Hc'. apply Hnum, elem_of_app. by left. }
  assert (Hne : number extr_dist) by by eapply scan_inv_number.
  destruct (s_ltb (distance c p) extr_dist) eqn:Hlt.
  - (* a strictly smaller distance: [c] is the nearest so far *)
    assert (Hseen : ∀ c', c' ∈ seen → s_ltb (distance c' p) extr_dist = false).
    { intros c' Hc'. destruct Hinv as [(-> & _ & Hinf)|(r & c0 & _ & _ & -> & Hmin & _)].
      - by apply Hinf.
      - apply list_elem_of_lookup_1 in Hc' as [k Hk]. by eapply Hmin. }
    right. exists (length seen), c. split; [done|].
    split; [by rewrite list_lookup_middle|]. split; [done|]. split.
    + intros k c' Hk. apply lookup_app_Some in Hk as [Hk|[_ Hk]].
      * destruct (s_ltb (distance c' p) (distance c p)) eqn:Hlt'; [|done].
        assert (Hc' : c' ∈ seen) by by eapply list_elem_of_lookup_2.
        rewrite <- (Hseen c' Hc'). symmetry.
        by apply (ltb_trans _ (distance c p)); auto.
      * apply list_lookup_singleton_Some in Hk as [_ <-]. by apply ltb_irrefl.
    + intros k c' Hk Hc'. rewrite lookup_app_l in Hc' by done.
      assert (Hin : c' ∈ seen) by by eapply list_elem_of_lookup_2.
      apply (ltb_below _ extr_dist); auto.
  - (* not smaller: the selection stays *)
    destruct Hinv as [(-> & -> & Hinf)|(r & c0 & -> & Hr & -> & Hmin & Hlow)].
    + left. split; [done|]. split; [done|]. intros c' [Hc'|Hc']%elem_of_app; [by apply Hinf|].
      apply list_elem_of_singleton in Hc' as ->. done.
    + right. exists r, c0. split; [done|]. split; [by apply lookup_app_l_Some|].
      split; [done|]. split.
      * intros k c' Hk. apply lookup_app_Some in Hk as [Hk|[_ Hk]]; [by eapply Hmin|].
        by apply list_lookup_singleton_Some in Hk as [_ <-].
      * intros k c' Hk Hc'. apply (Hlow k c' Hk).
        apply lookup_lt_Some in Hr. by rewrite lookup_app_l in Hc' by lia.
Qed.

Lemma scan_centroids_inv p ind0 cs seen extr_dist extr_dist_ind :
  (∀ c, c ∈ seen ++ cs → number (distance c p)) →
  scan_inv p ind0 seen extr_dist extr_dist_ind →
  scan_inv p ind0 (seen ++ cs)
    (scan_centroids p cs (length seen) extr_dist extr_dist_ind).1
    (scan_centroids p cs (length seen) extr_dist extr_dist_ind).2.
Proof using Type*.
  revert seen extr_dist extr_dist_ind.
  induction cs as [|c cs IH]; intros seen extr_dist extr_dist_ind Hnum Hinv; simpl.
  - by rewrite app_nil_r.
  - assert (Hstep := scan_inv_step p ind0 seen c extr_dist extr_dist_ind).
    replace (seen ++ c :: cs) with ((seen ++ [c]) ++ cs) in * by by rewrite <- app_assoc.
    replace (S (length seen)) with (length (seen ++ [c])) by (rewrite length_app; simpl; lia).
    assert (Hnum' : ∀ c', c' ∈ seen ++ [c] → number (distance c' p)).
    { intros c' Hc'. apply Hnum, elem_of_app. by left. }
    specialize (Hstep Hnum' Hinv).
    destruct (s_ltb (distance c p) extr_dist); by apply IH.
Qed.

(** The scan of one point selects the nearest centroid, lowest index
    first, as soon as one distance is below [infinity]. *)
Lemma scan_centroids_nearest p cs ind0 :
  (∀ c, c ∈ cs → number (distance c p)) →
  (∃ c, c ∈ cs ∧ s_ltb (distance c p) s_infinity = true) →
  ∃ j, (scan_centroids p cs 0 s_infinity ind0).2 = Some j ∧ nearest_lowest cs p j.
Proof using Type*.
  intros Hnum (c & Hc & Hfin).
  destruct (scan_centroids_inv p ind0 cs [] s_infinity ind0 Hnum)
    as [(_ & _ & Hinf)|(r & c0 & Hr & Hc0 & _ & Hmin & Hlow)].
  - left. split; [done|]. split; [done|]. intros c' Hc'. by apply elem_of_nil in Hc'.
  - simpl in Hinf. rewrite (Hinf c Hc) in Hfin. done.
  - exists r. split; [done|]. by exists c0.
Qed.

End BruteForce.

(** Two maps agree below [n] or differ at some index below [n]. *)
Lemma maps_agree_or_differ (m m' : list nat) n :
  (∀ k, k < n → m' !! k = m !! k) ∨ (∃ k, k < n ∧ m' !! k ≠ m !! k).
Proof.
  induction n as [|n [IH|(k & Hk & Hne)]].
  - left. intros k. lia.
  - destruct (decide (m' !! n = m !! n)) as [Heq|Hne].
    + left. intros k Hk. destruct (decide (k = n)) as [->|]; [done|]. apply IH. lia.
    + right. exists n. split; [lia|done].
  - right. exists k. split; [lia|done].
Qed.

(** The flag is cleared exactly when some point below [num_points] got a
    cluster that differs from the stored one. *)
Lemma assignment_step_changed (use_kd_tree : bool) cs pts index_map ind
    index_map' unchanged ind' :
  assignment_step use_kd_tree cs pts index_map ind = Returned (index_map', unchanged, ind') →
  unchanged = false ↔ ∃ i, i < length pts ∧ index_map' !! i ≠ index_map !! i.
Proof.
  intros (Hlen & Hrest & Hflag)%assignment_step_flag. split.
  - intros ->. destruct (maps_agree_or_differ index_map index_map' (length pts))
      as [Hsame|Hdiff]; [|done].
    assert (Heq : index_map' = index_map); [|by apply Hflag in Heq].
    apply list_eq. intros k. destruct (decide (k < length pts)); [by apply Hsame|].
    apply Hrest. lia.
  - intros (i & _ & Hne). destruct unchanged; [|done].
    destruct Hflag as [Heq _]. by rewrite Heq in Hne.
Qed.

(** C7.  A brute-force pass over points whose distances are numbers, one
    of them below [infinity] for each point, returns; it stores for every
    point the nearest centroid, the lowest index first among equally near
    ones, and it clears [assignments_unchanged] (reports a change) exactly
    when the cluster stored for some point differs from the previous one. *)
Theorem brute_force_assigns_nearest
    (number : T → Prop) `{!ScalarOrder T number} cs pts index_map ind :
  length pts ≤ length index_map →
  (∀ i p, pts !! i = Some p →
     (∀ c, c ∈ cs → number (distance c p)) ∧
     (∃ c, c ∈ cs ∧ s_ltb (distance c p) s_infinity = true)) →
  ∃ index_map' unchanged ind',
    assignment_step false cs pts index_map ind = Returned (index_map', unchanged, ind') ∧
    (∀ i p, pts !! i = Some p →
       ∃ j, index_map' !! i = Some j ∧ nearest_lowest cs p j) ∧
    (unchanged = false ↔ ∃ i, i < length pts ∧ index_map' !! i ≠ index_map !! i).
Proof.
  intros Hlen Hpts.
  pose (P := λ (i : nat) (st : assign_state),
    length st.1.1 = length index_map ∧
    ∀ k p, k < i → pts !! k = Some p →
      ∃ j, st.1.1 !! k = Some j ∧ nearest_lowest cs p j).
  destruct (for_loop_total P (length pts) 0 (assign_brute_body cs pts) (index_map, true, ind))
    as ([[index_map' unchanged] ind'] & Hrun & _ & Hnear).
  - split; [done|]. intros k p. lia.
  - intros i [[m u] d] [_ Hi] [Hm Hdone]. simpl in Hi, Hm, Hdone.
    unfold assign_brute_body.
    destruct (get_lt pts i Hi) as (p & -> & Hp). cbn [mbind outcome_bind].
    destruct (Hpts i p Hp) as [Hnum Hfin].
    destruct (scan_centroids_nearest number p cs d Hnum Hfin) as (j & Hj & Hnearest).
    destruct (scan_centroids p cs 0 s_infinity d) as [dist d']. simpl in Hj. subst d'.
    cbn [read_local mbind outcome_bind].
    destruct (get_lt m i) as (old & -> & Hold); [lia|]. cbn [mbind outcome_bind].
    rewrite set_lt by lia. cbn [mbind outcome_bind].
    eexists. split; [done|]. split; simpl; [by rewrite length_insert|].
    intros k q Hk Hq. destruct (decide (k = i)) as [->|Hne].
    + rewrite list_lookup_insert_eq by lia. exists j. split; [done|]. congruence.
    + rewrite list_lookup_insert_ne by done. apply Hdone; [lia|done].
  - exists index_map', unchanged, ind'.
    assert (Hstep : assignment_step false cs pts index_map ind
                    = Returned (index_map', unchanged, ind')) by done.
    split; [done|]. split.
    + intros i p Hp. apply (Hnear i p); [|done]. by eapply lookup_lt_Some.
    + by eapply assignment_step_changed.
Qed.

(** ** Frame of the loop: what an iteration leaves alone *)

Lemma update_centroids_length cs pts index_map sums point_count :
  update_centroids cs pts index_map = Returned (sums, point_count) →
  length sums = length cs ∧ length point_count = length cs.
Proof.
  unfold update_centroids. intros Hrun.
  apply (for_loop_inv (λ _ st, length st.1 = length cs ∧ length st.2 = length cs)) in Hrun;
    [done| |].
  - simpl. unfold setZero. by rewrite length_fmap, length_replicate.
  - intros i [sums0 pc0] st' _ [Hs Hp] Hb. unfold accumulate_body in Hb.
    inv_outcome. simpl in *. by rewrite !length_insert.
Qed.

(** Lines 133-170 for one cluster: nothing happens to a non-empty cluster;
    for an empty one, a point [e] of the largest cluster [max_ind] gets
    cluster [i], its coordinates leave the sum of [max_ind], one count
    goes down and the count of [i] goes up.  The sum of [i] is not
    assigned. *)
Lemma repair_body_shape num_clusters pts i index_map cs point_count ind st' :
  repair_body num_clusters pts i (index_map, cs, point_count, ind) = Returned st' →
  (∃ c, point_count !! i = Some c ∧ c ≠ 0%N ∧ st' = (index_map, cs, point_count, ind)) ∨
  (point_count !! i = Some 0%N ∧
   ∃ e p col_max cnt_max cnt_i extr_dist,
     let max_ind := find_largest num_clusters point_count in
     point_count !! max_ind = Some cnt_max ∧
     cs !! max_ind = Some col_max ∧
     for_loop (length pts) 0
       (furthest_body (vscale col_max (s_recip cnt_max)) max_ind pts index_map)
       (s_minus_one, ind) = Returned (extr_dist, Some e) ∧
     e < length index_map ∧
     pts !! e = Some p ∧
     <[max_ind := size_decr cnt_max]> point_count !! i = Some cnt_i ∧
     st' = (<[e := i]> index_map,
            <[max_ind := vsub col_max p]> cs,
            <[i := size_incr cnt_i]> (<[max_ind := size_decr cnt_max]> point_count),
            Some e)).
Proof.
  unfold repair_body. intros Hb. inv_outcome. case_decide as Hz.
  - left. inv_outcome. by eexists.
  - right. assert (a = 0%N) as -> by (destruct (decide (a = 0%N)); [done|contradiction]).
    split; [done|]. inv_outcome. by eexists _, _, _, _, _, _.
Qed.

Lemma repair_body_length num_clusters pts i index_map cs point_count ind
    index_map' cs' point_count' ind' :
  repair_body num_clusters pts i (index_map, cs, point_count, ind)
    = Returned (index_map', cs', point_count', ind') →
  length index_map' = length index_map ∧ length cs' = length cs ∧
  length point_count' = length point_count.
Proof.
  intros [(c & _ & _ & [= -> -> -> ->])|(_ & e & p & cm & nm & ni & ed & _ & _ & _ & _ & _ & _ & Hst)]
    %repair_body_shape; [done|].
  injection Hst as -> -> -> ->. by rewrite !length_insert.
Qed.

Lemma repair_empty_clusters_length num_clusters pts index_map cs point_count ind
    index_map' cs' point_count' ind' :
  repair_empty_clusters num_clusters pts (index_map, cs, point_count, ind)
    = Returned (index_map', cs', point_count', ind') →
  length index_map' = length index_map ∧ length cs' = length cs ∧
  length point_count' = length point_count.
Proof.
  unfold repair_empty_clusters. intros Hrun.
  apply (for_loop_inv (λ _ (st : repair_state),
           length st.1.1.1 = length index_map ∧ length st.1.1.2 = length cs ∧
           length st.1.2 = length point_count)) in Hrun; [done|done|].
  intros i [[[m c] pc] d] [[[m' c'] pc'] d'] _ (Hm & Hc & Hp) Hb. simpl in *.
  apply repair_body_length in Hb as (-> & -> & ->). done.
Qed.

Lemma compute_new_centroids_length sums point_count cs :
  compute_new_centroids sums point_count = Returned cs → length cs = length sums.
Proof.
  unfold compute_new_centroids. intros Hrun.
  apply (for_loop_inv (λ _ c, length c = length sums)) in Hrun; [done|done|].
  intros i c c' _ Hc Hb. unfold divide_body in Hb. inv_outcome.
  by rewrite length_insert.
Qed.

Lemma update_step_frame km ind km' point_count ind' :
  update_step km ind = Returned (km', point_count, ind') →
  data_map_ km' = data_map_ km ∧
  cluster_point_indices_ km' = cluster_point_indices_ km ∧
  length (cluster_centroids_ km') = length (cluster_centroids_ km) ∧
  length (cluster_index_map_ km') = length (cluster_index_map_ km) ∧
  iteration_count_ km' = S (iteration_count_ km).
Proof.
  unfold update_step. intros Hrun. inv_outcome. simpl.
  repeat match goal with
  | H : update_centroids _ _ _ = Returned _ |- _ =>
      apply update_centroids_length in H as [? ?]
  | H : repair_empty_clusters _ _ _ = Returned _ |- _ =>
      apply repair_empty_clusters_length in H as (? & ? & ?)
  | H : compute_new_centroids _ _ = Returned _ |- _ =>
      apply compute_new_centroids_length in H
  end.
  repeat split; congruence.
Qed.

Lemma while_loop_frame remaining tol tol_sq use_kd_tree km ind km' ind' :
  while_loop remaining tol tol_sq use_kd_tree km ind = Returned (km', ind') →
  data_map_ km' = data_map_ km ∧
  cluster_point_indices_ km' = cluster_point_indices_ km ∧
  length (cluster_centroids_ km') = length (cluster_centroids_ km) ∧
  length (cluster_index_map_ km') = length (cluster_index_map_ km) ∧
  iteration_count_ km ≤ iteration_count_ km' ≤ iteration_count_ km + remaining.
Proof.
  revert km ind. induction remaining as [|remaining IH]; intros km ind Hrun; simpl in Hrun.
  - inv_outcome. repeat split; lia.
  - inv_outcome.
    match goal with
    | H : assignment_step _ _ _ _ _ = Returned (_, ?u, _) |- _ =>
        apply assignment_step_flag in H as (Hlen & _ & _); destruct u
    end; inv_outcome; [simpl; repeat split; first [done|lia]|].
    match goal with
    | H : update_step _ _ = Returned _ |- _ =>
        apply update_step_frame in H as (Hd & Hb & Hc & Hm & Hi)
    end. simpl in *.
    match goal with
    | H : centroids_converged _ _ _ _ = Returned ?b |- _ => clear H; destruct b
    end; inv_outcome.
    + repeat split; first [congruence|lia].
    + apply IH in Hrun as (Hd' & Hb' & Hc' & Hm' & Hi').
      repeat split; first [congruence|lia].
Qed.

(** ** The buckets *)

Lemma sum_lengths_insert (buckets : list (list nat)) c bucket x :
  buckets !! c = Some bucket →
  sum_list (length <$> <[c := bucket ++ [x]]> buckets) = S (sum_list (length <$> buckets)).
Proof.
  revert c. induction buckets as [|b buckets IH]; intros [|c] Hc; csimpl in *; try done.
  - injection Hc as ->. rewrite length_app. simpl. lia.
  - rewrite (IH c Hc). lia.
Qed.

(** Lines 184-187, from empty buckets: each point index is appended to the
    bucket of its cluster, and to that one only. *)
Lemma bucket_loop_partition index_map num_clusters num_points buckets :
  for_loop num_points 0 (bucket_body index_map) (replicate num_clusters [])
    = Returned buckets →
  length buckets = num_clusters ∧ exact_partition num_points buckets ∧
  ∀ i c bucket, buckets !! c = Some bucket → i ∈ bucket → index_map !! i = Some c.
Proof.
  intros Hrun.
  pose (P := λ (n : nat) (b : list (list nat)),
    length b = num_clusters ∧
    (∀ c bucket x, b !! c = Some bucket → x ∈ bucket → x < n ∧ index_map !! x = Some c) ∧
    (∀ x, x < n → ∃ c bucket, b !! c = Some bucket ∧ x ∈ bucket) ∧
    (∀ c bucket, b !! c = Some bucket → NoDup bucket) ∧
    sum_list (length <$> b) = n).
  apply (for_loop_inv P) in Hrun.
  - destruct Hrun as (Hlen & Hin & Hall & Hnd & Hsum). simpl in *.
    split; [done|]. split; [|intros i c bucket Hc Hi; by apply (Hin c bucket i)].
    split; [|split; [|done]].
    + intros i Hi. destruct (Hall i Hi) as (c & bucket & Hc & Hic).
      exists c, bucket. split; [done|]. split; [done|].
      intros c' bucket' Hc' Hic'.
      apply (Hin c bucket i Hc) in Hic as [_ Hm].
      apply (Hin c' bucket' i Hc') in Hic' as [_ Hm']. congruence.
    + intros bucket [c Hc]%list_elem_of_lookup_1. split; [by eapply Hnd|].
      intros i Hi. by apply (Hin c bucket i).
  - unfold P. rewrite length_replicate. split; [done|]. split; [|split; [|split]].
    + intros c bucket x [-> _]%lookup_replicate Hx. by apply elem_of_nil in Hx.
    + intros x. lia.
    + intros c bucket [-> _]%lookup_replicate. apply NoDup_nil_2.
    + rewrite fmap_replicate, sum_list_replicate. simpl. lia.
  - intros i b b' _ (Hlen & Hin & Hall & Hnd & Hsum) Hb. simpl.
    unfold bucket_body in Hb. inv_outcome. rename a into c, a0 into bucket.
    unfold P. rewrite length_insert. split; [done|]. split; [|split; [|split]].
    + intros c' bucket' x Hc' Hx. destruct (decide (c' = c)) as [->|Hne].
      * rewrite list_lookup_insert_eq in Hc' by done. injection Hc' as <-.
        apply elem_of_app in Hx as [Hx|Hx].
        -- destruct (Hin c bucket x Ha0 Hx). split; [lia|done].
        -- apply list_elem_of_singleton in Hx as ->. split; [lia|done].
      * rewrite list_lookup_insert_ne in Hc' by done.
        destruct (Hin c' bucket' x Hc' Hx). split; [lia|done].
    + intros x Hx. destruct (decide (x = i)) as [->|Hne].
      * exists c, (bucket ++ [i]). rewrite list_lookup_insert_eq by done.
        split; [done|]. apply elem_of_app. right. by apply list_elem_of_singleton.
      * destruct (Hall x) as (c' & bucket' & Hc' & Hx'); [lia|].
        destruct (decide (c' = c)) as [->|Hnc].
        -- exists c, (bucket ++ [i]). rewrite list_lookup_insert_eq by done.
           split; [done|]. apply elem_of_app. left. congruence.
        -- exists c', bucket'. by rewrite list_lookup_insert_ne.
    + intros c' bucket' Hc'. destruct (decide (c' = c)) as [->|Hne].
      * rewrite list_lookup_insert_eq in Hc' by done. injection Hc' as <-.
        apply NoDup_app. split; [by eapply Hnd|]. split; [|apply NoDup_singleton].
        intros x Hx ->%list_elem_of_singleton.
        destruct (Hin c bucket i Ha0 Hx). lia.
      * rewrite list_lookup_insert_ne in Hc' by done. by eapply Hnd.
    + rewrite (sum_lengths_insert _ _ _ _ Ha0). lia.
Qed.

(** A run on a freshly constructed object that returns leaves as many
    centroids as it was given and buckets that partition the indices. *)
Lemma cluster__partition data cs n max_iter tol use_kd_tree st :
  cluster_ max_iter tol use_kd_tree (mkKMeans data cs [] [] n) = Returned st →
  data_map_ st = data ∧
  getNumberOfClusters st = length cs ∧
  length (getClusterPointIndices st) = length cs ∧
  exact_partition (length data) (getClusterPointIndices st) ∧
  (∀ i c bucket, getClusterPointIndices st !! c = Some bucket →
     i ∈ bucket → getClusterIndexMap st !! i = Some c) ∧
  getPerformedIterationsCount st ≤ max_iter.
Proof.
  unfold cluster_. cbn [data_map_ cluster_centroids_ cluster_point_indices_
    cluster_index_map_ iteration_count_]. intros Hrun. inv_outcome.
  match goal with
  | H : while_loop _ _ _ _ _ _ = Returned _ |- _ =>
      apply while_loop_frame in H as (Hd & Hb & Hc & Hm & Hi)
  end. simpl in *.
  match goal with
  | H : for_loop _ _ (bucket_body _) _ = Returned _ |- _ =>
      rewrite Hb, resize_nil in H;
      apply bucket_loop_partition in H as (Hlen & Hpart & Hmap)
  end.
  unfold getNumberOfClusters, getClusterPointIndices, getClusterIndexMap,
    getPerformedIterationsCount. simpl. do 5 (split; [done|]). lia.
Qed.

(** The initialiser hands [cluster_] a fresh object with
    [min(num_clusters, N)] centroids. *)
Lemma cluster_unfold rand num_clusters max_iter tol use_kd_tree data :
  ∃ cs, length cs = num_clusters `min` length data ∧
    cluster rand num_clusters max_iter tol use_kd_tree (KMeans_ctor data)
    = cluster_ max_iter tol use_kd_tree (mkKMeans data cs [] [] 0).
Proof.
  unfold cluster, KMeans_ctor.
  cbn [data_map_ cluster_centroids_ cluster_point_indices_ cluster_index_map_
       iteration_count_].
  set (cols := if decide (length data < num_clusters) then length data else num_clusters).
  assert (Hcols : cols = num_clusters `min` length data)
    by (unfold cols; case_decide; lia).
  destruct (pick_centroids_total rand data cols) as (cs & range & Hrun & Hlen); [lia|].
  exists cs. split; [lia|]. by rewrite Hrun.
Qed.

Lemma clusters_in_use data max_iter tol use_kd_tree st :
  (∀ cs,
     cluster_with_centroids cs max_iter tol use_kd_tree (KMeans_ctor data) = Returned st →
     getNumberOfClusters st = length cs) ∧
  (∀ rand num_clusters,
     cluster rand num_clusters max_iter tol use_kd_tree (KMeans_ctor data) = Returned st →
     getNumberOfClusters st = num_clusters `min` length data).
Proof.
  split.
  - intros cs Hrun. unfold cluster_with_centroids, KMeans_ctor in Hrun. simpl in Hrun.
    by apply cluster__partition in Hrun as (_ & Hk & _).
  - intros rand num_clusters Hrun.
    destruct (cluster_unfold rand num_clusters max_iter tol use_kd_tree data)
      as (cs & Hlen & Heq).
    rewrite Heq in Hrun.
    apply cluster__partition in Hrun as (_ & Hk & _). by rewrite Hk.
Qed.

(** C8 (amended).  When a run on a freshly constructed object returns, the buckets
    are an exact partition of the point indices (every index below [N] is
    in exactly one bucket, no bucket repeats an index, the sizes add up to
    [N]) and there are as many buckets as clusters in use: the number of
    centroids supplied, or [min(num_clusters, N)] for a requested count. *)
Theorem buckets_partition_point_indices data max_iter tol use_kd_tree st :
  (∀ cs,
     cluster_with_centroids cs max_iter tol use_kd_tree (KMeans_ctor data) = Returned st →
     exact_partition (length data) (getClusterPointIndices st) ∧
     length (getClusterPointIndices st) = getNumberOfClusters st ∧
     getNumberOfClusters st = length cs) ∧
  (∀ rand num_clusters,
     cluster rand num_clusters max_iter tol use_kd_tree (KMeans_ctor data) = Returned st →
     exact_partition (length data) (getClusterPointIndices st) ∧
     length (getClusterPointIndices st) = getNumberOfClusters st ∧
     getNumberOfClusters st = num_clusters `min` length data).
Proof.
  split.
  - intros cs Hrun. unfold cluster_with_centroids, KMeans_ctor in Hrun. simpl in Hrun.
    apply cluster__partition in Hrun as (_ & Hk & Hb & Hpart & _). by rewrite Hk.
  - intros rand num_clusters Hrun.
    destruct (cluster_unfold rand num_clusters max_iter tol use_kd_tree data)
      as (cs & Hlen & Heq).
    rewrite Heq in Hrun.
    apply cluster__partition in Hrun as (_ & Hk & Hb & Hpart & _). rewrite Hk. auto.
Qed.

(** C6 (amended).  A requested cluster count is clamped: the initialiser
    selects [min(num_clusters, N)] centroids and a run that returns uses
    that many clusters, never more than [N].  Explicit centroids are not
    clamped: the run uses as many clusters as centroids were supplied. *)
Theorem requested_count_is_clamped data max_iter tol use_kd_tree st :
  (∀ rand num_clusters,
     ∃ cs, length cs = num_clusters `min` length data ∧
       cluster rand num_clusters max_iter tol use_kd_tree (KMeans_ctor data)
       = cluster_ max_iter tol use_kd_tree (mkKMeans data cs [] [] 0)) ∧
  (∀ rand num_clusters,
     cluster rand num_clusters max_iter tol use_kd_tree (KMeans_ctor data) = Returned st →
     getNumberOfClusters st = num_clusters `min` length data ∧
     getNumberOfClusters st ≤ length data) ∧
  (∀ cs,
     cluster_with_centroids cs max_iter tol use_kd_tree (KMeans_ctor data)
     = cluster_ max_iter tol use_kd_tree (mkKMeans data cs [] [] 0)) ∧
  (∀ cs,
     cluster_with_centroids cs max_iter tol use_kd_tree (KMeans_ctor data) = Returned st →
     getNumberOfClusters st = length cs).
Proof.
  destruct (clusters_in_use data max_iter tol use_kd_tree st)
    as [Hexplicit Hcount].
  split; [|split; [|split]].
  - intros rand num_clusters. apply cluster_unfold.
  - intros rand num_clusters Hrun. rewrite (Hcount _ _ Hrun). lia.
  - done.
  - intros cs Hrun. by apply Hexplicit.
Qed.

(** ** No error is raised *)

Lemma never_raises_Returned {A} (a : A) : never_raises (Returned a).
Proof. by intros e. Qed.

Lemma never_raises_Undefined {A} u : never_raises (@Undefined A u).
Proof. by intros e. Qed.

Lemma never_raises_bind {A B} (m : outcome A) (f : A → outcome B) :
  never_raises m → (∀ a, never_raises (f a)) → never_raises (m ≫= f).
Proof.
  intros Hm Hf e. destruct m as [a|e'|u]; simpl; [apply Hf| |done].
  by destruct (Hm e').
Qed.

Lemma never_raises_get {A} (v : list A) i : never_raises (get v i).
Proof. intros e. unfold get. by destruct (v !! i). Qed.

Lemma never_raises_set {A} (v : list A) i x : never_raises (set v i x).
Proof. intros e. unfold set. by case_decide. Qed.

Lemma never_raises_read_local x : never_raises (read_local x).
Proof. intros e. by destruct x. Qed.

Lemma never_raises_for_loop {A} n lo body (a : A) :
  (∀ i x, never_raises (body i x)) → never_raises (for_loop n lo body a).
Proof.
  intros Hbody. revert lo a. induction n as [|n IH]; intros lo a; simpl.
  - apply never_raises_Returned.
  - apply never_raises_bind; [apply Hbody|]. intros a'. apply IH.
Qed.

Lemma never_raises_maxCoeff a : never_raises (maxCoeff a).
Proof. intros e. by destruct a. Qed.

(** Every function of the engine is built from the steps above. *)
Ltac never_raises_step :=
  match goal with
  | |- never_raises (Returned _) => apply never_raises_Returned
  | |- never_raises (mret _) => apply never_raises_Returned
  | |- never_raises (Undefined _) => apply never_raises_Undefined
  | |- never_raises (get _ _) => apply never_raises_get
  | |- never_raises (set _ _ _) => apply never_raises_set
  | |- never_raises (read_local _) => apply never_raises_read_local
  | |- never_raises (maxCoeff _) => apply never_raises_maxCoeff
  | |- never_raises (for_loop _ _ _ _) => apply never_raises_for_loop; intros ? ?
  | |- never_raises (_ ≫= _) => apply never_raises_bind; [|intros ?]
  | |- never_raises (match ?x with (_, _) => _ end) => destruct x
  | |- never_raises (if ?b then _ else _) => destruct b
  end.

Lemma never_raises_assignment_step use_kd_tree cs pts index_map ind :
  never_raises (assignment_step use_kd_tree cs pts index_map ind).
Proof.
  unfold assignment_step, assign_kd_tree_body, assign_brute_body.
  repeat never_raises_step.
Qed.

Lemma never_raises_update_step km ind : never_raises (update_step km ind).
Proof.
  unfold update_step, update_centroids, accumulate_body, repair_empty_clusters,
    repair_body, furthest_body, compute_new_centroids, divide_body.
  repeat never_raises_step.
Qed.

Lemma never_raises_while_loop remaining tol tol_sq use_kd_tree km ind :
  never_raises (while_loop remaining tol tol_sq use_kd_tree km ind).
Proof.
  revert km ind. induction remaining as [|remaining IH]; intros km ind; simpl.
  - apply never_raises_Returned.
  - apply never_raises_bind; [apply never_raises_assignment_step|].
    intros [[m u] d]. destruct u; [apply never_raises_Returned|].
    apply never_raises_bind; [apply never_raises_update_step|].
    intros [[km2 pc] d2]. unfold centroids_converged.
    repeat never_raises_step. apply IH.
Qed.

Lemma never_raises_cluster_ max_iter tol use_kd_tree km :
  never_raises (cluster_ max_iter tol use_kd_tree km).
Proof.
  unfold cluster_. apply never_raises_bind; [apply never_raises_while_loop|].
  intros [km1 d]. unfold bucket_body. repeat never_raises_step.
Qed.

Lemma never_raises_cluster rand num_clusters max_iter tol use_kd_tree km :
  never_raises (cluster rand num_clusters max_iter tol use_kd_tree km).
Proof.
  unfold cluster. cbv zeta. apply never_raises_bind.
  - unfold pick_body. repeat never_raises_step.
  - intros [[cs range] prev]. apply never_raises_cluster_.
Qed.

(** ** Degenerate inputs *)

(** With no point the first assignment pass changes nothing. *)
Lemma while_loop_no_points remaining tol tol_sq use_kd_tree km ind :
  data_map_ km = [] →
  while_loop remaining tol tol_sq use_kd_tree km ind = Returned (km, ind).
Proof.
  intros Hdata. destruct remaining as [|remaining]; [done|]. simpl.
  unfold assignment_step. rewrite Hdata. simpl. destruct use_kd_tree; simpl;
    destruct km; simpl in *; by subst.
Qed.

(** Without a centroid, a run over at least one point is undefined: the
    brute-force scan leaves [extr_dist_ind] unassigned, and whatever the
    search structure answers, [col()] or [operator[]] is out of range. *)
Lemma cluster__no_centroid p pts n max_iter tol use_kd_tree :
  ∃ u, cluster_ max_iter tol use_kd_tree (mkKMeans (p :: pts) [] [] [] n) = Undefined u.
Proof.
  unfold cluster_. cbn [data_map_ cluster_centroids_ cluster_point_indices_
    cluster_index_map_ iteration_count_ length]. rewrite !resize_nil.
  destruct max_iter as [|remaining].
  - simpl. by eexists.
  - cbn [while_loop data_map_ cluster_centroids_ cluster_point_indices_
      cluster_index_map_ iteration_count_].
    pose proof (never_raises_assignment_step use_kd_tree [] (p :: pts)
                  (replicate (S (length pts)) 0) None) as Hnr.
    destruct (assignment_step use_kd_tree [] (p :: pts) (replicate (S (length pts)) 0) None)
      as [[[m u] d]|e|u0] eqn:Hpass; [|by destruct (Hnr e)|by eexists].
    cbn [mbind outcome_bind].
    apply assignment_step_flag in Hpass as (Hlen & _ & _).
    rewrite length_replicate in Hlen. destruct m as [|c m]; [done|].
    destruct u; cbn [mbind outcome_bind].
    + simpl. by eexists.
    + unfold update_step, update_centroids.
      cbn [data_map_ cluster_centroids_ cluster_point_indices_ cluster_index_map_
           iteration_count_ length for_loop setZero fmap list_fmap replicate].
      simpl. by eexists.
Qed.

(** C4 (amended).  [cluster(0, ...)] raises no [InvalidArgument]: the
    initialiser selects no centroid and [cluster_] runs.  On an empty
    point set the call returns, with no cluster and no iteration; on a
    non-empty one its behaviour is undefined. *)
Theorem zero_clusters_not_rejected rand max_iter tol use_kd_tree :
  cluster rand 0 max_iter tol use_kd_tree (KMeans_ctor []) = Returned (mkKMeans [] [] [] [] 0) ∧
  (∀ p pts, ∃ u,
     cluster rand 0 max_iter tol use_kd_tree (KMeans_ctor (p :: pts)) = Undefined u) ∧
  (∀ data,
     cluster rand 0 max_iter tol use_kd_tree (KMeans_ctor data) ≠ Raised InvalidArgument).
Proof.
  split; [|split].
  - unfold cluster, KMeans_ctor, cluster_. simpl. by rewrite while_loop_no_points.
  - intros p pts. unfold cluster, KMeans_ctor. simpl. apply cluster__no_centroid.
  - intros data. apply never_raises_cluster.
Qed.

(** C5 (amended).  No run raises [InternalInvariantViolation], or any
    other error.  With no point ([N = 0]) the loop ends at its first
    assignment pass (nothing changed), so that lines 122-181, the division
    of the sums by the counts among them, are not executed, and the run
    returns the centroids it was given and one empty bucket per centroid. *)
Theorem no_points_no_division cs n max_iter tol use_kd_tree :
  (∀ remaining tol_sq ind,
     while_loop remaining tol tol_sq use_kd_tree (mkKMeans [] cs [] [] 0) ind
     = Returned (mkKMeans [] cs [] [] 0, ind)) ∧
  cluster_ max_iter tol use_kd_tree (mkKMeans [] cs [] [] n)
  = Returned (mkKMeans [] cs (replicate (length cs) []) [] 0) ∧
  (∀ km, never_raises (cluster_ max_iter tol use_kd_tree km)) ∧
  (∀ km centroids,
     cluster_with_centroids centroids max_iter tol use_kd_tree km
     ≠ Raised InternalInvariantViolation) ∧
  (∀ km rand num_clusters,
     cluster rand num_clusters max_iter tol use_kd_tree km
     ≠ Raised InternalInvariantViolation).
Proof.
  split; [|split; [|split; [|split]]].
  - intros remaining tol_sq ind. by apply while_loop_no_points.
  - unfold cluster_. simpl. rewrite while_loop_no_points by done. simpl.
    by rewrite resize_nil.
  - intros km. apply never_raises_cluster_.
  - intros km centroids. apply never_raises_cluster_.
  - intros km rand num_clusters. apply never_raises_cluster.
Qed.

(** ** Counts *)

Lemma size_incr_small c : (c + 1 < 2 ^ size_bits)%N → size_incr c = (c + 1)%N.
Proof. intros Hc. unfold size_incr. by apply N.mod_small. Qed.

Lemma size_decr_pos c : (0 < c < 2 ^ size_bits)%N → size_decr c = (c - 1)%N.
Proof.
  intros Hc. unfold size_decr.
  replace (c + (2 ^ size_bits - 1))%N with ((c - 1) + 1 * 2 ^ size_bits)%N by lia.
  rewrite N.Div0.mod_add. apply N.mod_small. lia.
Qed.

Lemma sumN_insert point_count k c c' :
  point_count !! k = Some c →
  (sumN (<[k := c']> point_count) + c = sumN point_count + c')%N.
Proof.
  revert k. induction point_count as [|x pc IH]; intros [|k] Hk; simpl in *; try done.
  - injection Hk as ->. lia.
  - specialize (IH k Hk). lia.
Qed.

Lemma sumN_lookup_le point_count k c :
  point_count !! k = Some c → (c ≤ sumN point_count)%N.
Proof.
  revert k. induction point_count as [|x pc IH]; intros [|k] Hk; simpl in *; try done.
  - injection Hk as ->. lia.
  - specialize (IH k Hk). lia.
Qed.

Lemma sumN_at_most_ones point_count :
  (∀ k c, point_count !! k = Some c → (c ≤ 1)%N) →
  (sumN point_count ≤ N.of_nat (length point_count))%N.
Proof.
  induction point_count as [|x pc IH]; intros Hle; simpl; [lia|].
  assert (x ≤ 1)%N by (by apply (Hle 0)).
  assert (sumN pc ≤ N.of_nat (length pc))%N by (apply IH; intros k c; apply (Hle (S k))).
  lia.
Qed.

(** Counts of at most one, with a zero among them, add up to less than
    their number. *)
Lemma sumN_with_empty point_count j :
  (∀ k c, point_count !! k = Some c → (c ≤ 1)%N) →
  point_count !! j = Some 0%N →
  (sumN point_count < N.of_nat (length point_count))%N.
Proof.
  revert j. induction point_count as [|x pc IH]; intros [|j] Hle Hj; simpl in *; try done.
  - injection Hj as ->.
    assert (sumN pc ≤ N.of_nat (length pc))%N
      by (apply sumN_at_most_ones; intros k c; apply (Hle (S k))).
    lia.
  - assert (x ≤ 1)%N by (by apply (Hle 0)).
    assert (sumN pc < N.of_nat (length pc))%N
      by (apply (IH j); [intros k c; apply (Hle (S k))|done]).
    lia.
Qed.

(** Lines 137-140 find a cluster of largest count. *)
Lemma find_largest_spec num_clusters (point_count : list N) :
  0 < num_clusters →
  find_largest num_clusters point_count < num_clusters ∧
  ∀ k, k < num_clusters →
    (point_count !!! k ≤ point_count !!! find_largest num_clusters point_count)%N.
Proof.
  intros Hk. unfold find_largest.
  set (f := λ (max_ind j : nat),
    if (point_count !!! max_ind <? point_count !!! j)%N then j else max_ind).
  assert (Hgen : ∀ n, foldl f 0 (seq 1 n) ≤ n ∧
    ∀ k, k ≤ n → (point_count !!! k ≤ point_count !!! foldl f 0%nat (seq 1%nat n))%N).
  { induction n as [|n [IHm IHle]].
    - simpl. split; [lia|]. intros k Hk0. replace k with 0%nat by lia. lia.
    - rewrite seq_S, foldl_app. simpl. set (m := foldl f 0 (seq 1 n)) in *.
      assert (f m (S n) = if (point_count !!! m <? point_count !!! S n)%N then S n else m)
        as -> by done.
      destruct (N.ltb_spec (point_count !!! m) (point_count !!! S n)).
      + split; [lia|]. intros k Hkn. destruct (decide (k = S n)) as [->|]; [lia|].
        specialize (IHle k). lia.
      + split; [lia|]. intros k Hkn. destruct (decide (k = S n)) as [->|]; [lia|].
        apply IHle. lia. }
  destruct (Hgen (num_clusters - 1)) as [Hm Hle]. split; [lia|].
  intros k Hkn. apply Hle. lia.
Qed.

(** ** The sums and counts through update and repair *)

Lemma sumN_replicate_zero n : sumN (replicate n 0%N) = 0%N.
Proof. induction n as [|n IH]; simpl; [done|]. by rewrite IH. Qed.

(** Lines 125-130 establish [repair_inv]. *)
Lemma update_centroids_inv cs pts index_map sums point_count m d :
  (N.of_nat (length pts) < 2 ^ size_bits)%N →
  update_centroids cs pts index_map = Returned (sums, point_count) →
  repair_inv cs (length pts) (m, sums, point_count, d).
Proof.
  intros Hsize Hrun. unfold update_centroids in Hrun.
  pose (P := λ (i : nat) (st : Matrix * list N),
    length st.1 = length cs ∧ length st.2 = length cs ∧ sumN st.2 = N.of_nat i ∧
    ∀ k, st.2 !! k = Some 0%N → st.1 !! k = setZero cs !! k).
  apply (for_loop_inv P) in Hrun; [done| |].
  - unfold P, setZero. simpl.
    by rewrite length_fmap, length_replicate, sumN_replicate_zero.
  - intros i [s pc] st' [_ Hi] (Hs & Hp & Hsum & Hz) Hb. simpl in *.
    unfold accumulate_body in Hb. inv_outcome. unfold P. simpl.
    rewrite !length_insert. split; [done|]. split; [done|].
    match goal with
    | Hc : pc !! ?c = Some ?cnt |- _ =>
        pose proof (sumN_lookup_le _ _ _ Hc) as Hle;
        pose proof (sumN_insert pc c cnt (size_incr cnt) Hc) as Hins;
        rewrite size_incr_small in * by lia;
        split; [lia|];
        intros k Hk; destruct (decide (k = c)) as [->|Hne];
          [rewrite list_lookup_insert_eq in Hk by (by eapply lookup_lt_Some);
           injection Hk as Hk; lia|];
        rewrite list_lookup_insert_ne in Hk by done;
        rewrite list_lookup_insert_ne by done; by apply Hz
    end.
Qed.

(** One step of the repair loop, with no more clusters than points: the
    largest cluster has at least two points, so that the cluster it gives
    a point to is another one, and no repaired cluster is emptied again. *)
Lemma repair_body_step cs0 pts j st st' :
  length cs0 ≤ length pts →
  (N.of_nat (length pts) < 2 ^ size_bits)%N →
  j < length cs0 →
  repair_inv cs0 (length pts) st →
  repair_body (length cs0) pts j st = Returned st' →
  repair_inv cs0 (length pts) st' ∧
  (∀ i, i ≠ j → repaired cs0 i st → repaired cs0 i st') ∧
  (st.1.2 !! j = Some 0%N →
   repaired cs0 j st' ∧
   ∃ e p max_ind col_max cnt_max,
     max_ind ≠ j ∧ pts !! e = Some p ∧
     st.1.1.2 !! max_ind = Some col_max ∧ st.1.2 !! max_ind = Some cnt_max ∧
     (2 ≤ cnt_max)%N ∧
     st' = (<[e := j]> st.1.1.1, <[max_ind := vsub col_max p]> st.1.1.2,
            <[j := 1%N]> (<[max_ind := (cnt_max - 1)%N]> st.1.2), Some e)).
Proof.
  destruct st as [[[m sums] pc] d]. intros HKN Hsize Hj (Hs & Hp & Hsum & Hz) Hb.
  simpl in Hs, Hp, Hsum, Hz.
  apply repair_body_shape in Hb
    as [(c & Hc & Hc0 & ->)|(Hj0 & e & p & col_max & cnt_max & cnt_i & ed
                              & Hmax & Hcol & _ & He & Hpt & Hcnt_i & ->)].
  { split; [done|]. split; [done|]. simpl. intros Hj0. congruence. }
  set (max_ind := find_largest (length cs0) pc) in *.
  destruct (find_largest_spec (length cs0) pc) as [Hmlt Hmle]; [lia|].
  fold max_ind in Hmlt, Hmle.
  assert (Hmaxt : pc !!! max_ind = cnt_max) by by apply list_lookup_total_correct.
  assert (Hbig : (2 ≤ cnt_max)%N).
  { destruct (decide (2 ≤ cnt_max)%N) as [|Hsmall]; [done|exfalso].
    assert (Hones : ∀ k c, pc !! k = Some c → (c ≤ 1)%N).
    { intros k c Hk. pose proof (lookup_lt_Some _ _ _ Hk) as Hklt.
      apply list_lookup_total_correct in Hk. specialize (Hmle k). lia. }
    pose proof (sumN_with_empty pc j Hones Hj0). lia. }
  assert (Hne : max_ind ≠ j) by (intros Heq; rewrite Heq in Hmax; simplify_eq; lia).
  pose proof (sumN_lookup_le _ _ _ Hmax) as Hle.
  rewrite list_lookup_insert_ne in Hcnt_i by done.
  assert (cnt_i = 0%N) as -> by congruence.
  rewrite size_decr_pos by lia.
  assert (size_incr 0 = 1%N) as -> by done.
  assert (Hsum' : sumN (<[j := 1%N]> (<[max_ind := (cnt_max - 1)%N]> pc))
                  = N.of_nat (length pts)).
  { pose proof (sumN_insert pc max_ind cnt_max (cnt_max - 1)%N Hmax) as H1.
    pose proof (sumN_insert (<[max_ind := (cnt_max - 1)%N]> pc) j 0%N 1%N) as H2.
    rewrite list_lookup_insert_ne in H2 by done. specialize (H2 Hj0). lia. }
  split; [|split].
  - unfold repair_inv. simpl. rewrite !length_insert.
    split; [done|]. split; [done|]. split; [done|].
    intros k Hk. destruct (decide (k = j)) as [->|Hkj].
    { rewrite list_lookup_insert_eq in Hk by (rewrite length_insert; lia). done. }
    rewrite list_lookup_insert_ne in Hk by done.
    destruct (decide (k = max_ind)) as [->|Hkm].
    { rewrite list_lookup_insert_eq in Hk by lia. injection Hk as Hk. lia. }
    rewrite list_lookup_insert_ne in Hk by done.
    rewrite list_lookup_insert_ne by done. by apply Hz.
  - intros i Hij [Hi1 Hiz]. simpl in Hi1, Hiz. unfold repaired. simpl.
    assert (max_ind ≠ i) by (intros Heq; rewrite Heq in Hmax; simplify_eq; lia).
    by rewrite !list_lookup_insert_ne by done.
  - intros _. split.
    + unfold repaired. simpl.
      rewrite list_lookup_insert_eq by (rewrite length_insert; lia).
      split; [done|]. rewrite list_lookup_insert_ne by done. by apply Hz.
    + by exists e, p, max_ind, col_max, cnt_max.
Qed.

(** Lines 173-176 scale the sum of every cluster by the reciprocal of its
    count. *)
Lemma compute_new_centroids_lookup sums point_count cs k col cnt :
  compute_new_centroids sums point_count = Returned cs →
  sums !! k = Some col → point_count !! k = Some cnt →
  cs !! k = Some (vscale col (s_recip cnt)).
Proof.
  intros Hrun Hcol Hcnt. unfold compute_new_centroids in Hrun.
  pose (P := λ (n : nat) (c : Matrix),
    length c = length sums ∧ (∀ k, n ≤ k → c !! k = sums !! k) ∧
    (∀ k col cnt, k < n → sums !! k = Some col → point_count !! k = Some cnt →
       c !! k = Some (vscale col (s_recip cnt)))).
  apply (for_loop_inv P) in Hrun.
  - destruct Hrun as (_ & _ & Hdone). apply Hdone; [|done|done].
    simpl. by eapply lookup_lt_Some.
  - unfold P. split; [done|]. split; [done|]. intros ?. lia.
  - intros i c c' _ (Hlen & Hrest & Hdone) Hb. unfold divide_body in Hb. inv_outcome.
    unfold P. rewrite length_insert. split; [done|]. split.
    + intros k' Hk'. rewrite list_lookup_insert_ne by lia. apply Hrest. lia.
    + intros k' col' cnt' Hk' Hcol' Hcnt'. destruct (decide (k' = i)) as [->|Hne].
      * rewrite list_lookup_insert_eq by done.
        rewrite Hrest in * by lia. by simplify_eq.
      * rewrite list_lookup_insert_ne by done. apply Hdone; [lia|done|done].
Qed.

Lemma vscale_vzero c x : s_mul s_zero x = s_zero → vscale (vzero c) x = vzero c.
Proof.
  intros Hlaw. unfold vscale, vzero. rewrite <- list_fmap_compose.
  apply list_fmap_ext. intros i y _. simpl. done.
Qed.

(** The repair loop keeps [repair_inv], and a repaired cluster repaired. *)
Lemma repair_loop_inv cs0 pts n lo st st' :
  length cs0 ≤ length pts →
  (N.of_nat (length pts) < 2 ^ size_bits)%N →
  lo + n ≤ length cs0 →
  repair_inv cs0 (length pts) st →
  for_loop n lo (repair_body (length cs0) pts) st = Returned st' →
  repair_inv cs0 (length pts) st' ∧
  ∀ i, i < lo → repaired cs0 i st → repaired cs0 i st'.
Proof.
  intros HKN Hsize Hn Hinv Hrun.
  pose (P := λ (j : nat) (x : repair_state),
    repair_inv cs0 (length pts) x ∧ ∀ i, i < lo → repaired cs0 i st → repaired cs0 i x).
  apply (for_loop_inv P) in Hrun; [done|done|].
  intros j x x' Hj [Hx Hrep] Hb.
  destruct (repair_body_step cs0 pts j x x') as (Hx' & Hkeep & _); try done; [lia|].
  split; [done|]. intros i Hi Hst. apply Hkeep; [lia|]. by apply Hrep.
Qed.

(** C3 (amended).  In an iteration with no more clusters than points, let the repair
    loop find cluster [i] empty.  Its step for [i] stores [i] for a point
    [e] of the largest cluster [max_ind], which is another cluster,
    subtracts the coordinates of [e] from the sum of [max_ind] and from no
    other sum, so that the sum of [i] stays the zero vector, and makes
    the count of [i] one.  After the division of lines 173-176 the count
    of [i] is still one and the centroid of [i] is the zero vector,
    whatever the relocated point is. *)
Theorem repaired_cluster_gets_zero_centroid
    km ind km' point_count' ind' i sums point_count index_map_i sums_i point_count_i ind_i :
  let num_clusters := length (cluster_centroids_ km) in
  let pts := data_map_ km in
  s_mul s_zero (s_recip 1) = s_zero →
  num_clusters ≤ length pts →
  (N.of_nat (length pts) < 2 ^ size_bits)%N →
  update_step km ind = Returned (km', point_count', ind') →
  update_centroids (cluster_centroids_ km) pts (cluster_index_map_ km)
    = Returned (sums, point_count) →
  for_loop i 0 (repair_body num_clusters pts) (cluster_index_map_ km, sums, point_count, ind)
    = Returned (index_map_i, sums_i, point_count_i, ind_i) →
  i < num_clusters →
  point_count_i !! i = Some 0%N →
  ∃ e p max_ind col_max cnt_max c_i,
    repair_body num_clusters pts i (index_map_i, sums_i, point_count_i, ind_i)
    = Returned (<[e := i]> index_map_i,
                <[max_ind := vsub col_max p]> sums_i,
                <[i := 1%N]> (<[max_ind := (cnt_max - 1)%N]> point_count_i),
                Some e) ∧
    max_ind ≠ i ∧
    pts !! e = Some p ∧
    sums_i !! max_ind = Some col_max ∧
    point_count_i !! max_ind = Some cnt_max ∧
    cluster_centroids_ km !! i = Some c_i ∧
    sums_i !! i = Some (vzero c_i) ∧
    <[max_ind := vsub col_max p]> sums_i !! i = Some (vzero c_i) ∧
    point_count' !! i = Some 1%N ∧
    cluster_centroids_ km' !! i = Some (vzero c_i).
Proof.
  intros num_clusters pts Hlaw HKN Hsize Hrun Hacc Hpre Hi Hempty.
  unfold update_step in Hrun. fold pts num_clusters in Hrun. rewrite Hacc in Hrun.
  cbn [mbind outcome_bind] in Hrun. inv_outcome.
  match goal with
  | Hrep : repair_empty_clusters _ _ _ = Returned _,
    Hdiv : compute_new_centroids _ _ = Returned _ |- _ =>
      rename Hrep into Hrepair; rename Hdiv into Hdivide
  end.
  (* the loop up to [i], its step for [i], and the rest *)
  unfold repair_empty_clusters in Hrepair.
  replace num_clusters with (i + S (num_clusters - S i)) in Hrepair at 1 by lia.
  rewrite for_loop_split, Hpre in Hrepair.
  cbn [mbind outcome_bind for_loop] in Hrepair.
  apply bind_Returned in Hrepair as (st_next & Hstep & Hrest).
  change (0 + i) with i in Hstep, Hrest.
  assert (Hinv0 : repair_inv (cluster_centroids_ km) (length pts)
                    (cluster_index_map_ km, sums, point_count, ind))
    by by eapply update_centroids_inv.
  destruct (repair_loop_inv (cluster_centroids_ km) pts i 0 _ _ HKN Hsize
              ltac:(unfold num_clusters in *; lia) Hinv0 Hpre) as [Hinv_i _].
  destruct (repair_body_step (cluster_centroids_ km) pts i _ _ HKN Hsize Hi Hinv_i Hstep)
    as (Hinv_next & _ & Hshape).
  destruct (Hshape Hempty)
    as (Hrepaired & e & p & max_ind & col_max & cnt_max & Hne & Hp & Hcol & Hcnt & _ & Hnext).
  simpl in Hcol, Hcnt, Hnext.
  destruct (repair_loop_inv (cluster_centroids_ km) pts (num_clusters - S i) (S i)
              _ _ HKN Hsize
              ltac:(unfold num_clusters in *; lia) Hinv_next Hrest) as [_ Hkeep].
  destruct (Hkeep i ltac:(lia) Hrepaired) as [Hcount Hsum]. simpl in Hcount, Hsum.
  (* the centroid [setZero] wrote for [i] *)
  destruct (lookup_lt_is_Some_2 (cluster_centroids_ km) i Hi) as [c_i Hc_i].
  assert (Hzero : setZero (cluster_centroids_ km) !! i = Some (vzero c_i)).
  { unfold setZero. by rewrite list_lookup_fmap, Hc_i. }
  destruct Hinv_i as (_ & _ & _ & Hz). simpl in Hz.
  exists e, p, max_ind, col_max, cnt_max, c_i.
  split; [by rewrite Hstep, Hnext|]. do 5 (split; [done|]).
  split; [by rewrite (Hz i Hempty)|].
  split; [by rewrite list_lookup_insert_ne, (Hz i Hempty)|].
  split; [done|]. simpl.
  rewrite Hzero in Hsum.
  rewrite (compute_new_centroids_lookup _ _ _ _ _ _ Hdivide Hsum Hcount).
  by rewrite vscale_vzero.
Qed.


(** * Further properties of the engine *)

(** ** The buckets and the index map *)

Lemma members_S index_map c n :
  members index_map c (S n)
  = members index_map c n ++ (if decide (index_map !! n = Some c) then [n] else []).
Proof. unfold members. by rewrite seq_S, filter_app, filter_singleton. Qed.

Lemma elem_of_members index_map c n i :
  i ∈ members index_map c n ↔ index_map !! i = Some c ∧ i < n.
Proof.
  unfold members. rewrite list_elem_of_filter, elem_of_seq. split; intros [? ?]; split; lia || done.
Qed.

(** Lines 185-187 from any buckets: the members of each cluster are
    appended, in increasing order, to what the bucket held. *)
Lemma bucket_loop_appends index_map num_points buckets0 buckets :
  for_loop num_points 0 (bucket_body index_map) buckets0 = Returned buckets →
  length buckets = length buckets0 ∧
  ∀ c old, buckets0 !! c = Some old →
    buckets !! c = Some (old ++ members index_map c num_points).
Proof.
  intros Hrun.
  pose (P := λ (n : nat) (b : list (list nat)),
    length b = length buckets0 ∧
    ∀ c old, buckets0 !! c = Some old → b !! c = Some (old ++ members index_map c n)).
  apply (for_loop_inv P) in Hrun; [done| |].
  - split; [done|]. intros c old Hc. unfold members. simpl. by rewrite app_nil_r.
  - intros i b b' _ [Hlen Hb] Hbody. unfold bucket_body in Hbody. inv_outcome.
    split; [by rewrite length_insert|]. intros c old Hc.
    rewrite members_S, app_assoc. specialize (Hb c old Hc).
    match goal with
    | Hm : index_map !! i = Some ?c0 |- _ => destruct (decide (c = c0)) as [->|Hne]
    end.
    + rewrite list_lookup_insert_eq by done. rewrite decide_True by done. congruence.
    + rewrite list_lookup_insert_ne by done. rewrite decide_False by congruence.
      by rewrite app_nil_r.
Qed.

(** What a run leaves alone, whatever the object it is called on: the
    points, the number of centroids; the map has one entry per point, there
    is one bucket per centroid, and at most [max_iter] iterations are
    counted. *)
Theorem cluster__keeps_shape max_iter tol use_kd_tree km st :
  cluster_ max_iter tol use_kd_tree km = Returned st →
  data_map_ st = data_map_ km ∧
  getNumberOfClusters st = getNumberOfClusters km ∧
  length (getClusterIndexMap st) = length (data_map_ km) ∧
  length (getClusterPointIndices st) = getNumberOfClusters km ∧
  getPerformedIterationsCount st ≤ max_iter.
Proof.
  unfold cluster_. intros Hrun. inv_outcome.
  match goal with
  | H : while_loop _ _ _ _ _ _ = Returned _ |- _ =>
      apply while_loop_frame in H as (Hd & Hb & Hc & Hm & Hi)
  end.
  match goal with
  | H : for_loop _ _ (bucket_body _) _ = Returned _ |- _ =>
      apply bucket_loop_appends in H as [Hlen _]
  end.
  simpl in *. rewrite length_resize in Hm. rewrite length_resize in Hlen.
  unfold getNumberOfClusters, getClusterPointIndices, getClusterIndexMap,
    getPerformedIterationsCount. simpl. repeat split; try done; lia.
Qed.

(** The buckets a run returns: [resize] keeps what the object held for
    each cluster, and the run appends the indices the final map gives to
    the cluster, in increasing order.  On a freshly constructed object a
    bucket is exactly the list of those indices. *)
Theorem buckets_list_the_members max_iter tol use_kd_tree km st :
  cluster_ max_iter tol use_kd_tree km = Returned st →
  (∀ c old,
     resize (getNumberOfClusters km) [] (cluster_point_indices_ km) !! c = Some old →
     getClusterPointIndices st !! c
     = Some (old ++ members (getClusterIndexMap st) c (length (data_map_ km)))) ∧
  (cluster_point_indices_ km = [] →
   ∀ c, c < getNumberOfClusters km →
     getClusterPointIndices st !! c
     = Some (members (getClusterIndexMap st) c (length (data_map_ km)))).
Proof.
  unfold cluster_. intros Hrun. inv_outcome.
  match goal with
  | H : while_loop _ _ _ _ _ _ = Returned _ |- _ =>
      apply while_loop_frame in H as (Hd & Hb & Hc & Hm & Hi)
  end.
  match goal with
  | H : for_loop _ _ (bucket_body _) _ = Returned _ |- _ =>
      apply bucket_loop_appends in H as [Hlen Happ]
  end.
  simpl in *. unfold getNumberOfClusters, getClusterPointIndices, getClusterIndexMap.
  simpl. rewrite Hb in Happ.
  split; [exact Happ|]. intros Hfresh c Hlt. rewrite Hfresh, resize_nil in Happ.
  apply (Happ c []). by apply lookup_replicate_2.
Qed.

(** ** The largest cluster (lines 137-140) *)

(** The cluster lines 137-140 select has the largest count, and it is the
    first such cluster: every cluster before it has a strictly smaller
    count. *)
Theorem find_largest_first_largest num_clusters (point_count : list N) :
  0 < num_clusters →
  find_largest num_clusters point_count < num_clusters ∧
  (∀ k, k < num_clusters →
     (point_count !!! k ≤ point_count !!! find_largest num_clusters point_count)%N) ∧
  (∀ k, k < find_largest num_clusters point_count →
     (point_count !!! k < point_count !!! find_largest num_clusters point_count)%N).
Proof.
  intros Hk. destruct (find_largest_spec num_clusters point_count Hk) as [Hlt Hle].
  split; [done|]. split; [done|]. unfold find_largest.
  set (f := λ (max_ind j : nat),
    if (point_count !!! max_ind <? point_count !!! j)%N then j else max_ind).
  assert (Hgen : ∀ n, foldl f 0%nat (seq 1 n) ≤ n ∧
    (∀ k, k ≤ n → (point_count !!! k ≤ point_count !!! foldl f 0%nat (seq 1%nat n))%N) ∧
    ∀ k, k < foldl f 0%nat (seq 1 n) →
      (point_count !!! k < point_count !!! foldl f 0%nat (seq 1%nat n))%N).
  { induction n as [|n (IHm & IHle & IHlt)].
    - simpl. split; [lia|]. split; [|intros k; lia].
      intros k Hk0. replace k with 0%nat by lia. lia.
    - rewrite seq_S, foldl_app. simpl. set (m := foldl f 0 (seq 1 n)) in *.
      assert (f m (S n) = if (point_count !!! m <? point_count !!! S n)%N then S n else m)
        as -> by done.
      destruct (N.ltb_spec (point_count !!! m) (point_count !!! S n)).
      + split; [lia|]. split.
        * intros k Hkn. destruct (decide (k = S n)) as [->|]; [lia|].
          specialize (IHle k). lia.
        * intros k Hkn. specialize (IHle k). lia.
      + split; [lia|]. split.
        * intros k Hkn. destruct (decide (k = S n)) as [->|]; [lia|]. apply IHle. lia.
        * done. }
  apply Hgen.
Qed.

(** ** The sums and counts of lines 125-130 *)

Lemma sum_of_points_snoc pts z idxs i p :
  pts !! i = Some p → sum_of_points pts z (idxs ++ [i]) = vadd (sum_of_points pts z idxs) p.
Proof.
  intros Hp. unfold sum_of_points. rewrite foldl_app. simpl.
  by rewrite (list_lookup_total_correct _ _ _ Hp).
Qed.

(** An accumulation that returned has read, for every point, a cluster
    below [num_clusters]. *)
Lemma update_centroids_in_range cs pts index_map res :
  update_centroids cs pts index_map = Returned res →
  ∀ i, i < length pts → ∃ c, index_map !! i = Some c ∧ c < length cs.
Proof.
  unfold update_centroids. intros Hrun i Hi.
  replace (length pts) with (i + S (length pts - S i)) in Hrun by lia.
  rewrite for_loop_split in Hrun. apply bind_Returned in Hrun as ([s pc] & Hpre & Hrest).
  assert (Hlen : length s = length cs).
  { apply (for_loop_inv (λ _ (st : Matrix * list N), length st.1 = length cs)) in Hpre;
      [done|by unfold setZero; simpl; rewrite length_fmap|].
    intros j [s0 pc0] st' _ Hs Hb. unfold accumulate_body in Hb. inv_outcome.
    simpl in *. by rewrite length_insert. }
  simpl in Hrest. apply bind_Returned in Hrest as (st1 & Hb & _).
  unfold accumulate_body in Hb. inv_outcome.
  eexists. split; [eassumption|]. rewrite <- Hlen. by eapply lookup_lt_Some.
Qed.

(** The accumulation returns when the map stores a cluster below
    [num_clusters] for every point. *)
Lemma update_centroids_total cs pts index_map :
  (∀ i, i < length pts → ∃ c, index_map !! i = Some c ∧ c < length cs) →
  ∃ res, update_centroids cs pts index_map = Returned res.
Proof.
  unfold update_centroids. intros Hidx.
  destruct (for_loop_total
              (λ _ (st : Matrix * list N),
                 length st.1 = length cs ∧ length st.2 = length cs)
              (length pts) 0 (accumulate_body pts index_map)
              (setZero cs, replicate (length cs) 0%N)) as (res & Hrun & _);
    [by unfold setZero; simpl; rewrite length_fmap, length_replicate| |by exists res].
  intros i [s pc] [_ Hi] [Hs Hp]. simpl in Hi, Hs, Hp.
  destruct (Hidx i Hi) as (c & Hc & Hlt). unfold accumulate_body.
  rewrite (proj2 (get_Returned _ _ _) Hc). cbn [mbind outcome_bind].
  destruct (get_lt pts i Hi) as (p & -> & _). cbn [mbind outcome_bind].
  destruct (get_lt s c) as (col & -> & _); [lia|]. cbn [mbind outcome_bind].
  rewrite set_lt by lia. cbn [mbind outcome_bind].
  destruct (get_lt pc c) as (cnt & -> & _); [lia|]. cbn [mbind outcome_bind].
  rewrite set_lt by lia. cbn [mbind outcome_bind].
  eexists. split; [done|]. simpl. by rewrite !length_insert.
Qed.

(** The accumulation returns exactly when the map stores a cluster for
    every point: an index that is not below [num_clusters] makes [col()]
    and [operator[]] run out of range. *)
Theorem update_centroids_returns_iff cs pts index_map :
  (∃ res, update_centroids cs pts index_map = Returned res) ↔
  (∀ i, i < length pts → ∃ c, index_map !! i = Some c ∧ c < length cs).
Proof.
  split.
  - intros [res Hrun]. by eapply update_centroids_in_range.
  - apply update_centroids_total.
Qed.

(** The loop of lines 127-130 after [n] points: every cluster has the
    count and the sum of its members among them. *)
Lemma accumulate_loop_inv cs pts index_map n sums point_count :
  (N.of_nat n < 2 ^ size_bits)%N →
  for_loop n 0 (accumulate_body pts index_map) (setZero cs, replicate (length cs) 0%N)
    = Returned (sums, point_count) →
  ∀ c col, cs !! c = Some col →
    point_count !! c = Some (N.of_nat (length (members index_map c n))) ∧
    sums !! c = Some (sum_of_points pts (vzero col) (members index_map c n)).
Proof.
  intros Hsize Hrun.
  pose (P := λ (n : nat) (st : Matrix * list N),
    length st.1 = length cs ∧ length st.2 = length cs ∧
    ∀ c col, cs !! c = Some col →
      st.2 !! c = Some (N.of_nat (length (members index_map c n))) ∧
      st.1 !! c = Some (sum_of_points pts (vzero col) (members index_map c n))).
  apply (for_loop_inv P) in Hrun; [apply Hrun| |].
  - unfold P, setZero. simpl. rewrite length_fmap, length_replicate.
    split; [done|]. split; [done|]. intros c col Hc.
    rewrite lookup_replicate_2 by (by eapply lookup_lt_Some).
    by rewrite list_lookup_fmap, Hc.
  - intros i [s pc] st' [_ Hi] (Hs & Hp & Hall) Hb. simpl in Hi, Hs, Hp, Hall.
    unfold accumulate_body in Hb. inv_outcome. unfold P. simpl.
    rewrite !length_insert. split; [done|]. split; [done|].
    intros c col Hc. rewrite members_S. destruct (Hall c col Hc) as [Hcnt Hsum].
    match goal with
    | Hm : index_map !! i = Some ?c0 |- _ => destruct (decide (c = c0)) as [->|Hne]
    end.
    + rewrite decide_True by done. rewrite !list_lookup_insert_eq by lia.
      rewrite length_app. simpl.
      match goal with
      | Hm : index_map !! i = Some ?c0 |- _ =>
          pose proof (length_filter (λ j, index_map !! j = Some c0) (seq 0 i)) as Hle;
          rewrite length_seq in Hle; fold (members index_map c0 i) in Hle
      end.
      repeat match goal with
      | H1 : ?l !! ?k = Some ?x, H2 : ?l !! ?k = Some ?y |- _ =>
          assert (x = y) by congruence; subst x; clear H1
      end.
      split.
      * f_equal. rewrite size_incr_small by lia. lia.
      * f_equal. by erewrite sum_of_points_snoc.
    + rewrite decide_False by congruence. rewrite app_nil_r.
      by rewrite !list_lookup_insert_ne by done.
Qed.

(** What the accumulation computes: for every cluster, the number of its
    members, and the sum of their coordinates added in increasing index
    order to the zero vector. *)
Theorem update_centroids_sums_and_counts cs pts index_map sums point_count :
  (N.of_nat (length pts) < 2 ^ size_bits)%N →
  update_centroids cs pts index_map = Returned (sums, point_count) →
  ∀ c col, cs !! c = Some col →
    point_count !! c = Some (N.of_nat (length (members index_map c (length pts)))) ∧
    sums !! c = Some (sum_of_points pts (vzero col) (members index_map c (length pts))).
Proof. intros Hsize Hrun. by apply (accumulate_loop_inv cs). Qed.

(** ** An update without empty cluster, and the repair with [K ≤ N] *)

(** The repair loop does nothing when no count is zero. *)
Lemma repair_without_empty_cluster num_clusters pts n lo st :
  (∀ c, lo ≤ c < lo + n → ∃ cnt, st.1.2 !! c = Some cnt ∧ cnt ≠ 0%N) →
  for_loop n lo (repair_body num_clusters pts) st = Returned st.
Proof.
  intros Hnz.
  destruct (for_loop_total (λ _ x, x = st) n lo (repair_body num_clusters pts) st)
    as (st' & Hrun & ->); [done| |done].
  intros i x Hi ->. exists st. split; [|done].
  destruct st as [[[m s] pc] d]. destruct (Hnz i Hi) as (cnt & Hcnt & Hne). simpl in Hcnt.
  unfold repair_body. rewrite (proj2 (get_Returned _ _ _) Hcnt). cbn [mbind outcome_bind].
  by rewrite decide_True.
Qed.

(** The division returns when there is a count for every sum. *)
Lemma compute_new_centroids_total sums point_count :
  length point_count = length sums →
  ∃ cs, compute_new_centroids sums point_count = Returned cs ∧ length cs = length sums.
Proof.
  intros Hlen. unfold compute_new_centroids.
  destruct (for_loop_total (λ _ (c : Matrix), length c = length sums) (length sums) 0
              (divide_body point_count) sums) as (cs & Hrun & Hcs); [done| |by exists cs].
  intros i c [_ Hi] Hc. simpl in Hi. unfold divide_body.
  destruct (get_lt point_count i) as (cnt & -> & _); [lia|]. cbn [mbind outcome_bind].
  destruct (get_lt c i) as (col & -> & _); [lia|]. cbn [mbind outcome_bind].
  rewrite set_lt by lia. eexists. split; [done|]. by rewrite length_insert.
Qed.

(** Lines 122-178 when the map stores a cluster for every point and every
    cluster has a member: the step returns, the repair moves no point, and
    the new centroid of each cluster is the sum of the coordinates of its
    members scaled by the reciprocal of their number. *)
Theorem update_step_computes_means km ind :
  (N.of_nat (length (data_map_ km)) < 2 ^ size_bits)%N →
  (∀ i, i < length (data_map_ km) →
     ∃ c, cluster_index_map_ km !! i = Some c ∧ c < length (cluster_centroids_ km)) →
  (∀ c, c < length (cluster_centroids_ km) →
     members (cluster_index_map_ km) c (length (data_map_ km)) ≠ []) →
  ∃ cs' point_count,
    update_step km ind
    = Returned (mkKMeans (data_map_ km) cs' (cluster_point_indices_ km)
                  (cluster_index_map_ km) (S (iteration_count_ km)),
                point_count, ind) ∧
    length cs' = length (cluster_centroids_ km) ∧
    ∀ c col, cluster_centroids_ km !! c = Some col →
      let idxs := members (cluster_index_map_ km) c (length (data_map_ km)) in
      point_count !! c = Some (N.of_nat (length idxs)) ∧
      cs' !! c = Some (vscale (sum_of_points (data_map_ km) (vzero col) idxs)
                         (s_recip (N.of_nat (length idxs)))).
Proof.
  intros Hsize Hidx Hmem.
  destruct (update_centroids_total (cluster_centroids_ km) (data_map_ km)
              (cluster_index_map_ km) Hidx) as ([sums pc] & Hacc).
  pose proof (update_centroids_length _ _ _ _ _ Hacc) as [Hs Hp].
  pose proof (accumulate_loop_inv _ _ _ _ _ _ Hsize Hacc) as Hchar.
  destruct (compute_new_centroids_total sums pc) as (cs' & Hdiv & Hcs'); [lia|].
  exists cs', pc. unfold update_step. rewrite Hacc. cbn [mbind outcome_bind].
  unfold repair_empty_clusters. rewrite repair_without_empty_cluster.
  - cbn [mbind outcome_bind]. rewrite Hdiv. cbn [mbind outcome_bind].
    split; [done|]. split; [lia|]. intros c col Hc.
    destruct (Hchar c col Hc) as [Hcnt Hsum]. split; [done|].
    by apply (compute_new_centroids_lookup _ _ _ _ _ _ Hdiv).
  - intros c [_ Hc]. simpl in Hc.
    destruct (lookup_lt_is_Some_2 (cluster_centroids_ km) c Hc) as [col Hcol].
    destruct (Hchar c col Hcol) as [Hcnt _]. eexists. split; [exact Hcnt|].
    specialize (Hmem c Hc).
    destruct (members (cluster_index_map_ km) c (length (data_map_ km))); [done|].
    simpl. lia.
Qed.

(** With no more clusters than points the repair loop does what it is
    for: when it returns, the counts still add up to the number of points
    and no cluster has a count of zero, so that lines 173-176 divide by no
    zero count. *)
Theorem repair_leaves_no_empty_cluster
    cs pts index_map ind sums point_count index_map' sums' point_count' ind' :
  length cs ≤ length pts →
  (N.of_nat (length pts) < 2 ^ size_bits)%N →
  update_centroids cs pts index_map = Returned (sums, point_count) →
  repair_empty_clusters (length cs) pts (index_map, sums, point_count, ind)
    = Returned (index_map', sums', point_count', ind') →
  length point_count' = length cs ∧
  sumN point_count' = N.of_nat (length pts) ∧
  ∀ c cnt, point_count' !! c = Some cnt → (1 ≤ cnt)%N.
Proof.
  intros HKN Hsize Hacc Hrun. unfold repair_empty_clusters in Hrun.
  pose (P := λ (j : nat) (st : repair_state),
    repair_inv cs (length pts) st ∧
    ∀ k cnt, k < j → st.1.2 !! k = Some cnt → (1 ≤ cnt)%N).
  apply (for_loop_inv P) in Hrun.
  - destruct Hrun as [(_ & Hlen & Hsum & _) Hpos]. simpl in *.
    split; [done|]. split; [done|]. intros c cnt Hc. apply (Hpos c cnt); [|done].
    rewrite <- Hlen. by eapply lookup_lt_Some.
  - split; [by eapply update_centroids_inv|]. intros k cnt. lia.
  - intros j st st' [_ Hj] [Hinv Hpos] Hb. simpl in Hj.
    destruct (repair_body_step cs pts j st st' HKN Hsize Hj Hinv Hb)
      as (Hinv' & _ & Hshape).
    split; [done|]. intros k cnt Hk Hcnt.
    destruct st as [[[m s] pc] d].
    apply repair_body_shape in Hb as [(c & Hc & Hc0 & ->)|(Hj0 & _)].
    + simpl in Hcnt. destruct (decide (k = j)) as [->|Hne].
      * assert (cnt = c) as -> by congruence. lia.
      * apply (Hpos k cnt); [lia|done].
    + destruct (Hshape Hj0) as (_ & e & p & max_ind & col_max & cnt_max
                                 & Hne & _ & _ & Hmax & Hbig & ->).
      simpl in Hcnt, Hmax. destruct Hinv as (_ & Hlen & _). simpl in Hlen.
      destruct (decide (k = j)) as [->|Hkj].
      { rewrite list_lookup_insert_eq in Hcnt by (rewrite length_insert; lia).
        injection Hcnt as <-. lia. }
      rewrite list_lookup_insert_ne in Hcnt by done.
      destruct (decide (k = max_ind)) as [->|Hkm].
      { rewrite list_lookup_insert_eq in Hcnt by (by eapply lookup_lt_Some).
        injection Hcnt as <-. lia. }
      rewrite list_lookup_insert_ne in Hcnt by done.
      apply (Hpos k cnt); [lia|done].
Qed.

(** ** Why the loop ends (lines 84-182) *)

(** A loop that returns has run some number [k] of iterations to their end,
    reaching the state [km_k], and then ended in one of three ways.  Either
    [k] is [max_iter]: the loop condition failed, and [km_k] is returned.
    Or the next assignment pass, over the centroids of [km_k], found its
    map unchanged: line 121 left the loop, and [km_k] is returned.  Or
    [tol] is positive and one more iteration led from [km_k] to the
    returned state, whose centroids differ from those of [km_k]
    ([centroids_old]) by a largest squared displacement below [tol_sq]:
    line 181 left the loop.  The iterations are counted. *)
Theorem while_loop_ends_for_a_reason remaining tol tol_sq use_kd_tree km ind km' ind' :
  while_loop remaining tol tol_sq use_kd_tree km ind = Returned (km', ind') →
  ∃ k km_k ind_k,
    k ≤ remaining ∧
    iterations k use_kd_tree km ind = Returned (km_k, ind_k) ∧
    iteration_count_ km_k = iteration_count_ km + k ∧
    ((k = remaining ∧ km' = km_k ∧ ind' = ind_k) ∨
     (k < remaining ∧ km' = km_k ∧
      assignment_step use_kd_tree (cluster_centroids_ km_k) (data_map_ km_k)
        (cluster_index_map_ km_k) ind_k
      = Returned (cluster_index_map_ km_k, true, ind')) ∨
     (k < remaining ∧ s_ltb s_zero tol = true ∧
      iteration use_kd_tree km_k ind_k = Returned (km', ind') ∧
      iteration_count_ km' = iteration_count_ km + S k ∧
      ∃ m,
        maxCoeff (squaredNorm <$> zip_with vsub (cluster_centroids_ km')
                                    (cluster_centroids_ km_k)) = Returned m ∧
        s_ltb m tol_sq = true)).
Proof.
  revert km ind. induction remaining as [|remaining IH]; intros km ind Hrun.
  - simpl in Hrun. injection Hrun as <- <-. exists 0, km, ind.
    split; [done|]. split; [done|]. split; [lia|]. by left.
  - simpl in Hrun. apply bind_Returned in Hrun as ([[m u] d1] & Hpass & Hrun).
    destruct u.
    + (* line 121 *)
      injection Hrun as <- <-. exists 0, km, ind.
      split; [lia|]. split; [done|]. split; [lia|]. right. left.
      pose proof Hpass as (_ & _ & Hflag)%assignment_step_flag.
      assert (m = cluster_index_map_ km) as -> by by apply Hflag.
      split; [lia|]. split; [by destruct km|done].
    + apply bind_Returned in Hrun as ([[km2 pc] d2] & Hupd & Hrun).
      apply bind_Returned in Hrun as (converged & Hconv & Hrun).
      assert (Hiter : iteration use_kd_tree km ind = Returned (km2, d2)).
      { unfold iteration. rewrite Hpass. cbn [mbind outcome_bind].
        rewrite Hupd. done. }
      pose proof (update_step_frame _ _ _ _ _ Hupd) as (_ & _ & _ & _ & Hit).
      simpl in Hit. destruct converged.
      * (* line 181 *)
        injection Hrun as <- <-. exists 0, km, ind.
        split; [lia|]. split; [done|]. split; [lia|]. right. right.
        unfold centroids_converged in Hconv.
        destruct (s_ltb s_zero tol); [|discriminate Hconv].
        apply bind_Returned in Hconv as (mx & Hmax & Hlt). injection Hlt as Hlt.
        split; [lia|]. split; [done|]. split; [done|]. split; [lia|]. by exists mx.
      * destruct (IH _ _ Hrun) as (k & km_k & ind_k & Hk & Hks & Hcount & Hend).
        exists (S k), km_k, ind_k. split; [lia|]. split.
        { simpl. rewrite Hiter. done. }
        split; [lia|].
        destruct Hend as [(-> & -> & ->)|[(Hlt & -> & Hstable)|(Hlt & Htol & Hlast & Hc & Hm)]].
        -- by left.
        -- right. left. split; [lia|done].
        -- right. right. split; [lia|]. do 2 (split; [done|]). split; [lia|done].
Qed.

(** ** What an assignment pass stores (lines 87-119) *)

(** Once a distance is below [extr_dist], the scan forgets the value
    [extr_dist_ind] had. *)
Lemma scan_centroids_forgets p cs j extr_dist ind ind' :
  (∃ c, c ∈ cs ∧ s_ltb (distance c p) extr_dist = true) →
  scan_centroids p cs j extr_dist ind = scan_centroids p cs j extr_dist ind'.
Proof.
  revert j. induction cs as [|c cs IH]; intros j (c0 & Hin & Hlt); simpl.
  - by apply elem_of_nil in Hin.
  - destruct (s_ltb (distance c p) extr_dist) eqn:Hc; [done|].
    apply IH. exists c0. split; [|done].
    apply elem_of_cons in Hin as [->|Hin]; [congruence|done].
Qed.

(** The body of either assignment loop, for a point with a selection. *)
Lemma assign_body_selected (use_kd_tree : bool) cs pts i p e old index_map unchanged ind :
  (use_kd_tree = false → ∃ c, c ∈ cs ∧ s_ltb (distance c p) s_infinity = true) →
  pts !! i = Some p → selected use_kd_tree cs p = Some e → index_map !! i = Some old →
  ∃ ind',
    (if use_kd_tree then assign_kd_tree_body cs pts i (index_map, unchanged, ind)
     else assign_brute_body cs pts i (index_map, unchanged, ind))
    = Returned (<[i := e]> index_map, if decide (old ≠ e) then false else unchanged, ind').
Proof.
  intros Hfin Hp Hsel Hold. pose proof (lookup_lt_Some _ _ _ Hold) as Hi.
  unfold selected in Hsel. destruct use_kd_tree.
  - exists ind. unfold assign_kd_tree_body.
    rewrite (proj2 (get_Returned _ _ _) Hp). cbn [mbind outcome_bind].
    rewrite (proj2 (get_Returned _ _ _) Hsel). cbn [mbind outcome_bind].
    rewrite (proj2 (get_Returned _ _ _) Hold). cbn [mbind outcome_bind].
    by rewrite set_lt.
  - exists (Some e). unfold assign_brute_body.
    rewrite (proj2 (get_Returned _ _ _) Hp). cbn [mbind outcome_bind].
    rewrite (scan_centroids_forgets p cs 0 s_infinity ind None (Hfin eq_refl)).
    destruct (scan_centroids p cs 0 s_infinity None) as [dist d]. simpl in Hsel. subst d.
    cbn [read_local mbind outcome_bind].
    rewrite (proj2 (get_Returned _ _ _) Hold). cbn [mbind outcome_bind].
    by rewrite set_lt.
Qed.

(** Either assignment loop after [n] points: the map stores the selected
    cluster of each of them. *)
Lemma assign_loop_selected (use_kd_tree : bool) cs pts num st0 st :
  (use_kd_tree = false →
   ∀ i p, pts !! i = Some p → ∃ c, c ∈ cs ∧ s_ltb (distance c p) s_infinity = true) →
  for_loop num 0 (λ i st, if use_kd_tree then assign_kd_tree_body cs pts i st
                          else assign_brute_body cs pts i st) st0 = Returned st →
  ∀ i p, i < num → pts !! i = Some p →
    ∃ e, selected use_kd_tree cs p = Some e ∧ st.1.1 !! i = Some e.
Proof.
  intros Hfin Hrun.
  pose (P := λ (n : nat) (st : assign_state),
    ∀ i p, i < n → pts !! i = Some p →
      ∃ e, selected use_kd_tree cs p = Some e ∧ st.1.1 !! i = Some e).
  apply (for_loop_inv P) in Hrun.
  - done.
  - intros i p. lia.
  - intros n [[m u] d] st' [_ Hn] Hdone Hb. simpl in Hn, Hdone.
    assert (∃ p e, pts !! n = Some p ∧ selected use_kd_tree cs p = Some e ∧
                   n < length m ∧ st'.1.1 = <[n := e]> m) as (p & e & Hp & Hsel & Hlt & Hst).
    { unfold selected. destruct use_kd_tree.
      - unfold assign_kd_tree_body in Hb. inv_outcome. by eexists _, _.
      - unfold assign_brute_body in Hb. inv_outcome.
        match goal with
        | Hp : pts !! n = Some ?p |- _ =>
            rewrite (scan_centroids_forgets p cs 0 s_infinity d None
                       (Hfin eq_refl n p Hp)) in Hb;
            destruct (scan_centroids p cs 0 s_infinity None) as [dist d0] eqn:Hscan
        end.
        inv_outcome. eexists _, _. rewrite Hscan. by simpl. }
    intros i q Hi Hq. rewrite Hst. destruct (decide (i = n)) as [->|Hne].
    + rewrite list_lookup_insert_eq by done. exists e. split; [congruence|done].
    + rewrite list_lookup_insert_ne by done. apply Hdone; [lia|done].
Qed.

(** A pass that returns has stored, for every point, the cluster selected
    for it: the first neighbour returned by the search structure, or, on
    the brute-force path when each point has a centroid at a distance below
    [infinity], the selection of the scan, whatever [extr_dist_ind] held
    before the pass. *)
Theorem assignment_step_stores_selection
    use_kd_tree cs pts index_map ind index_map' unchanged ind' :
  (use_kd_tree = false →
   ∀ i p, pts !! i = Some p → ∃ c, c ∈ cs ∧ s_ltb (distance c p) s_infinity = true) →
  assignment_step use_kd_tree cs pts index_map ind = Returned (index_map', unchanged, ind') →
  ∀ i p, pts !! i = Some p →
    ∃ e, selected use_kd_tree cs p = Some e ∧ index_map' !! i = Some e.
Proof.
  intros Hfin Hrun i p Hp. rewrite assignment_step_unfold in Hrun.
  apply (assign_loop_selected _ _ _ _ _ _ Hfin Hrun i p); [|done].
  by eapply lookup_lt_Some.
Qed.

(** A map that already stores the selected cluster of every point is left
    as it is, and the flag stays [true]. *)
Lemma assignment_step_stable (use_kd_tree : bool) cs pts index_map ind :
  (use_kd_tree = false →
   ∀ i p, pts !! i = Some p → ∃ c, c ∈ cs ∧ s_ltb (distance c p) s_infinity = true) →
  (∀ i p, pts !! i = Some p →
     ∃ e, selected use_kd_tree cs p = Some e ∧ index_map !! i = Some e) →
  ∃ ind', assignment_step use_kd_tree cs pts index_map ind = Returned (index_map, true, ind').
Proof.
  intros Hfin Hsel. rewrite assignment_step_unfold.
  destruct (for_loop_total (λ _ (st : assign_state), st.1 = (index_map, true))
              (length pts) 0
              (λ i st, if use_kd_tree then assign_kd_tree_body cs pts i st
                       else assign_brute_body cs pts i st) (index_map, true, ind))
    as ([[m u] d] & Hrun & Hst); [done| |].
  - intros i [[m u] d] [_ Hi] [= -> ->]. simpl in Hi.
    destruct (lookup_lt_is_Some_2 pts i Hi) as [p Hp].
    destruct (Hsel i p Hp) as (e & He & Hm).
    destruct (assign_body_selected use_kd_tree cs pts i p e e index_map true d)
      as (d' & ->); try done.
    { intros Hkd. by apply (Hfin Hkd i p). }
    eexists. split; [done|]. simpl. rewrite list_insert_id by done.
    by rewrite decide_False by (intros Hne; by apply Hne).
  - simpl in Hst. injection Hst as -> ->. by exists d.
Qed.

(** Assignment is idempotent: after a pass that returned, a second pass
    over the same centroids and points changes nothing and reports so. *)
Theorem assignment_step_idempotent
    use_kd_tree cs pts index_map ind index_map' unchanged ind' ind2 :
  (use_kd_tree = false →
   ∀ i p, pts !! i = Some p → ∃ c, c ∈ cs ∧ s_ltb (distance c p) s_infinity = true) →
  assignment_step use_kd_tree cs pts index_map ind = Returned (index_map', unchanged, ind') →
  ∃ ind3,
    assignment_step use_kd_tree cs pts index_map' ind2 = Returned (index_map', true, ind3).
Proof.
  intros Hfin Hrun. apply assignment_step_stable; [done|].
  rewrite assignment_step_unfold in Hrun. intros i p Hp.
  apply (assign_loop_selected _ _ _ _ _ _ Hfin Hrun i p); [|done].
  by eapply lookup_lt_Some.
Qed.

(** ** The initialiser selects distinct points (lines 28-40) *)

Lemma swap_lookup {A} (l : list A) a b x y k :
  l !! a = Some x → l !! b = Some y →
  <[b := x]> (<[a := y]> l) !! k
  = l !! (if decide (k = b) then a else if decide (k = a) then b else k).
Proof.
  intros Ha Hb. pose proof (lookup_lt_Some _ _ _ Ha). pose proof (lookup_lt_Some _ _ _ Hb).
  repeat case_decide; subst.
  - rewrite list_lookup_insert_eq by (rewrite length_insert; lia). done.
  - rewrite list_lookup_insert_ne by done. rewrite list_lookup_insert_eq by lia. done.
  - by rewrite !list_lookup_insert_ne by done.
Qed.

(** [std::swap] of two entries keeps the entries distinct. *)
Lemma NoDup_swap {A} (l : list A) a b x y :
  l !! a = Some x → l !! b = Some y → NoDup l → NoDup (<[b := x]> (<[a := y]> l)).
Proof.
  intros Ha Hb Hnd. apply NoDup_alt. intros i j z Hi Hj.
  rewrite (swap_lookup l a b x y) in Hi, Hj by done.
  pose proof (proj1 (NoDup_alt l) Hnd _ _ _ Hi Hj) as Heq.
  repeat case_decide; subst; congruence.
Qed.

(** The selection loop returns; the index of the point copied into
    centroid [k] ends at position [N - 1 - k] of [range], whose entries stay
    distinct. *)
Lemma pick_centroids_distinct rand data cols :
  cols ≤ length data →
  ∃ cs range,
    for_loop cols 0 (pick_body rand data)
      (replicate cols [], seq 0 (length data), length (seq 0 (length data)))
    = Returned (cs, range, length data - cols) ∧
    length cs = cols ∧ length range = length data ∧ NoDup range ∧
    ∀ k, k < cols →
      ∃ r p, range !! (length data - 1 - k) = Some r ∧ data !! r = Some p ∧
             cs !! k = Some p.
Proof.
  intros Hcols.
  pose (P := λ (i : nat) (st : Matrix * list nat * nat),
    length st.1.1 = cols ∧ length st.1.2 = length data ∧ st.2 = length data - i ∧
    Forall (λ r, r < length data) st.1.2 ∧ NoDup st.1.2 ∧
    ∀ k, k < i →
      ∃ r p, st.1.2 !! (length data - 1 - k) = Some r ∧ data !! r = Some p ∧
             st.1.1 !! k = Some p).
  destruct (for_loop_total P cols 0 (pick_body rand data)
              (replicate cols [], seq 0 (length data), length (seq 0 (length data))))
    as ([[cs range] prev] & Hrun & Hlen & Hrange & Hprev & _ & Hnd & Hpicks).
  - unfold P; simpl. rewrite length_replicate, length_seq.
    split; [done|]. split; [done|]. split; [lia|]. split; [|split; [apply NoDup_seq|]].
    + apply Forall_forall. intros r Hr%elem_of_seq. lia.
    + intros k. lia.
  - intros i [[cs range] prev] [_ Hi] HP. unfold P in HP. simpl in HP, Hi.
    destruct HP as (Hcs & Hrange & -> & Hall & Hnd & Hpicks).
    unfold pick_body. case_decide; [lia|].
    assert (Hrand : rand i mod (length data - i) < length data - i)
      by (apply Nat.mod_upper_bound; lia).
    destruct (get_lt range (rand i mod (length data - i))) as (r & -> & Hr); [lia|].
    cbn [mbind outcome_bind].
    assert (Hrlt : r < length data).
    { eapply (proj1 (Forall_lookup _ _) Hall). exact Hr. }
    destruct (get_lt data r Hrlt) as (p & -> & Hp).
    cbn [mbind outcome_bind]. rewrite (set_lt cs i) by lia. cbn [mbind outcome_bind].
    destruct (get_lt range (length data - i - 1)) as (last & -> & Hlast); [lia|].
    assert (Hlastlt : last < length data).
    { eapply (proj1 (Forall_lookup _ _) Hall). exact Hlast. }
    cbn [mbind outcome_bind]. rewrite (set_lt range) by lia. cbn [mbind outcome_bind].
    rewrite set_lt by (rewrite length_insert; lia). cbn [mbind outcome_bind].
    eexists. split; [done|]. unfold P; simpl. rewrite !length_insert.
    split; [done|]. split; [done|]. split; [lia|].
    split; [apply Forall_insert; [apply Forall_insert|]; done|].
    split; [by apply NoDup_swap|].
    intros k Hk. destruct (decide (k = i)) as [->|Hne].
    + exists r, p. rewrite list_lookup_insert_eq by lia.
      replace (length data - 1 - i) with (length data - i - 1) by lia.
      rewrite list_lookup_insert_eq by (rewrite length_insert; lia). done.
    + destruct (Hpicks k) as (r' & p' & Hr' & Hp' & Hc'); [lia|].
      exists r', p'. rewrite !list_lookup_insert_ne by lia. done.
  - simpl in *. subst prev. by exists cs, range.
Qed.

(** [cluster(num_clusters, ...)] starts the engine from
    [min(num_clusters, N)] centroids that are copies of points with pairwise
    distinct indices: no point is selected twice, whatever the random
    numbers are. *)
Theorem initialiser_selects_distinct_points
    rand num_clusters max_iter tol use_kd_tree data :
  ∃ picks cs,
    length picks = num_clusters `min` length data ∧
    length cs = num_clusters `min` length data ∧
    NoDup picks ∧
    (∀ i r, picks !! i = Some r → ∃ p, data !! r = Some p ∧ cs !! i = Some p) ∧
    cluster rand num_clusters max_iter tol use_kd_tree (KMeans_ctor data)
    = cluster_ max_iter tol use_kd_tree (mkKMeans data cs [] [] 0).
Proof.
  unfold cluster, KMeans_ctor.
  cbn [data_map_ cluster_centroids_ cluster_point_indices_ cluster_index_map_
       iteration_count_].
  set (cols := if decide (length data < num_clusters) then length data else num_clusters).
  assert (Hcols : cols = num_clusters `min` length data)
    by (unfold cols; case_decide; lia).
  destruct (pick_centroids_distinct rand data cols)
    as (cs & range & Hrun & Hlen & Hrange & Hnd & Hpicks); [lia|].
  exists ((λ k, range !!! (length data - 1 - k)) <$> seq 0 cols), cs.
  assert (Hlookup : ∀ i r,
    ((λ k, range !!! (length data - 1 - k)) <$> seq 0 cols) !! i = Some r →
    i < cols ∧ range !! (length data - 1 - i) = Some r).
  { intros i r Hi. rewrite list_lookup_fmap in Hi.
    destruct (seq 0 cols !! i) as [k|] eqn:Hk; [|done].
    apply lookup_seq in Hk as [-> Hlt]. simpl in Hi. injection Hi as <-.
    split; [done|]. apply list_lookup_lookup_total_lt. lia. }
  split; [by rewrite length_fmap, length_seq|]. split; [lia|]. split; [|split].
  - apply NoDup_alt. intros i j r [Hi Hri]%Hlookup [Hj Hrj]%Hlookup.
    pose proof (proj1 (NoDup_alt range) Hnd _ _ _ Hri Hrj). lia.
  - intros i r [Hi Hri]%Hlookup. destruct (Hpicks i Hi) as (r' & p & Hr' & Hp & Hc).
    exists p. split; [congruence|done].
  - by rewrite Hrun.
Qed.

(** ** The furthest point of the largest cluster (lines 142-163) *)

(** The build without OpenMP runs the iterations in increasing order. *)
Lemma for_loop_in_order {A} n lo (body : nat → A → outcome A) (a : A) :
  for_loop n lo body a = for_in_order (seq lo n) body a.
Proof.
  revert lo a. induction n as [|n IH]; intros lo a; simpl; [done|].
  destruct (body lo a) as [a'| |]; simpl; [apply IH|done..].
Qed.

Lemma repair_body_sequential num_clusters pts i st :
  repair_body num_clusters pts i st
  = repair_body_in_order (seq 0 (length pts)) num_clusters pts i st.
Proof.
  destruct st as [[[index_map cs] point_count] ind].
  unfold repair_body, repair_body_in_order.
  destruct (get point_count i) as [cnt_i| |]; simpl; [|done..].
  case_decide; [done|].
  destruct (get point_count _) as [cnt_max| |]; simpl; [|done..].
  destruct (get cs _) as [col_max| |]; simpl; [|done..].
  by rewrite for_loop_in_order.
Qed.

(** The scan returns when the map has an entry for every point. *)
Lemma furthest_scan_total centre max_ind pts index_map order st0 :
  (∀ j, j ∈ order → j < length pts ∧ j < length index_map) →
  ∃ st, for_in_order order (furthest_body centre max_ind pts index_map) st0
        = Returned st.
Proof.
  revert st0. induction order as [|j rest IH]; intros [d ind] Hin; [by eexists|].
  cbn [for_in_order]. destruct (Hin j) as [Hp Hm]; [apply list_elem_of_here|].
  assert (∃ st1, furthest_body centre max_ind pts index_map j (d, ind) = Returned st1)
    as (st1 & ->).
  { unfold furthest_body.
    destruct (get_lt index_map j Hm) as (c & -> & _). cbn [mbind outcome_bind].
    case_decide; [|by eexists].
    destruct (get_lt pts j Hp) as (p & -> & _). cbn [mbind outcome_bind].
    destruct (s_ltb _ _); by eexists. }
  cbn [mbind outcome_bind]. apply IH. intros k Hk. apply Hin. by apply list_elem_of_further.
Qed.

Section Furthest.

Context (number : T → Prop) `{Hord : !ScalarOrder T number}.

(** What is not below [x] is above whatever [x] is above. *)
Lemma ltb_above x y z :
  number x → number y → number z →
  s_ltb x y = true → s_ltb x z = false → s_ltb z y = true.
Proof using Hord.
  intros Hx Hy Hz Hxy Hxz. destruct (s_ltb z y) eqn:Hzy; [done|].
  rewrite <- Hxz. by apply (ltb_below _ y).
Qed.

(** A value above [d] is not below what [d] is not below. *)
Lemma ltb_not_above d x q :
  number d → number x → number q →
  s_ltb d x = true → s_ltb d q = false → s_ltb x q = false.
Proof using Hord.
  intros Hd Hx Hq Hdx Hdq. destruct (s_ltb x q) eqn:Hxq; [|done].
  rewrite <- Hdq. symmetry. by apply (ltb_trans _ x).
Qed.

Lemma furthest_body_step centre max_ind pts index_map ind0 seen j st st' :
  number s_minus_one →
  (∀ k q, pts !! k = Some q → index_map !! k = Some max_ind →
     number (distance centre q)) →
  furthest_inv centre max_ind pts index_map ind0 seen st →
  furthest_body centre max_ind pts index_map j st = Returned st' →
  furthest_inv centre max_ind pts index_map ind0 (seen ++ [j]) st'.
Proof using Hord.
  intros Hm Hnum Hinv Hb. unfold furthest_body in Hb. destruct st as [d ind].
  apply bind_Returned in Hb as (c & Hc%get_Returned & Hb).
  case_decide as Hcm; cycle 1.
  { (* point [j] is of another cluster *)
    injection Hb as <-.
    assert (Hskip : ∀ k, k ∈ seen ++ [j] → index_map !! k = Some max_ind → k ∈ seen).
    { intros k [Hk|Hk]%elem_of_app Hkm; [done|].
      apply list_elem_of_singleton in Hk as ->. congruence. }
    destruct Hinv as [[Hst Hlow]
                     |(e & p & before & after & Hst & Hseen & Hp & Hem & Hpos & Hmax & Hfirst)].
    - left. split; [done|]. intros k q Hk Hq Hkm. by apply (Hlow k q); [apply Hskip|..].
    - right. exists e, p, before, (after ++ [j]). split; [done|].
      split; [by rewrite Hseen, <- app_assoc|]. do 3 (split; [done|]).
      split; [|done]. intros k q Hk Hq Hkm. by apply (Hmax k q); [apply Hskip|..]. }
  subst c. apply bind_Returned in Hb as (x & Hx%get_Returned & Hb).
  assert (Hnx : number (distance centre x)) by by eapply Hnum.
  assert (Hlast : ∀ k q, k ∈ [j] → pts !! k = Some q → q = x).
  { intros k q Hk%list_elem_of_singleton Hq. subst k. congruence. }
  destruct (s_ltb d (distance centre x)) eqn:Hlt; injection Hb as <-.
  - (* strictly further than the selection: [j] is selected *)
    right. exists j, x, seen, []. split; [done|]. split; [done|]. do 2 (split; [done|]).
    assert (Hd : number d ∧ s_ltb s_minus_one (distance centre x) = true ∧
                 (∀ k q, k ∈ seen → pts !! k = Some q → index_map !! k = Some max_ind →
                    s_ltb d (distance centre q) = false)).
    { destruct Hinv as [[[= -> ->] Hlow]
                       |(e & p & before & after & [= -> ->] & _ & Hp & Hem & Hpos & Hmax & _)].
      - done.
      - assert (number (distance centre p)) by by eapply Hnum.
        split; [done|]. split; [by apply (ltb_trans _ (distance centre p))|done]. }
    destruct Hd as (Hnd & Hpos & Hbelow). split; [done|]. split.
    + intros k q [Hk|Hk]%elem_of_app Hq Hkm.
      * apply (ltb_not_above d); eauto.
      * rewrite (Hlast k q Hk Hq). by apply ltb_irrefl.
    + intros k q Hk Hq Hkm. apply (ltb_above d); eauto.
  - (* not further: the selection stays *)
    destruct Hinv as [[[= -> ->] Hlow]
                     |(e & p & before & after & [= -> ->] & Hseen & Hp & Hem & Hpos & Hmax & Hfirst)].
    + left. split; [done|]. intros k q [Hk|Hk]%elem_of_app Hq Hkm.
      * by apply (Hlow k q).
      * by rewrite (Hlast k q Hk Hq).
    + right. exists e, p, before, (after ++ [j]). split; [done|].
      split; [by rewrite Hseen, <- app_assoc|]. do 3 (split; [done|]).
      split; [|done]. intros k q [Hk|Hk]%elem_of_app Hq Hkm.
      * by apply (Hmax k q).
      * by rewrite (Hlast k q Hk Hq).
Qed.

Lemma furthest_scan_inv centre max_ind pts index_map ind0 order seen st st' :
  number s_minus_one →
  (∀ k q, pts !! k = Some q → index_map !! k = Some max_ind →
     number (distance centre q)) →
  furthest_inv centre max_ind pts index_map ind0 seen st →
  for_in_order order (furthest_body centre max_ind pts index_map) st = Returned st' →
  furthest_inv centre max_ind pts index_map ind0 (seen ++ order) st'.
Proof using Hord.
  intros Hm Hnum. revert seen st.
  induction order as [|j rest IH]; intros seen st Hinv Hrun; simpl in Hrun.
  - injection Hrun as <-. by rewrite app_nil_r.
  - apply bind_Returned in Hrun as (st1 & Hb & Hrun).
    rewrite (cons_middle j seen rest), app_assoc.
    apply (IH _ st1); [|done]. by eapply furthest_body_step.
Qed.

(** What a scan that started from [-1.0] has selected, whatever the order
    in which every point was visited. *)
Lemma furthest_scan_selection centre max_ind pts index_map ind0 order d ind :
  number s_minus_one →
  (∀ j, j < length pts → j ∈ order) →
  (∀ k q, pts !! k = Some q → index_map !! k = Some max_ind →
     number (distance centre q)) →
  for_in_order order (furthest_body centre max_ind pts index_map) (s_minus_one, ind0)
    = Returned (d, ind) →
  ((∃ j q, pts !! j = Some q ∧ index_map !! j = Some max_ind ∧
           s_ltb s_minus_one (distance centre q) = true) →
     ∃ e, ind = Some e ∧ furthest pts index_map max_ind centre e ∧
          first_to_arrive order pts index_map max_ind centre e) ∧
  ((∀ j q, pts !! j = Some q → index_map !! j = Some max_ind →
           s_ltb s_minus_one (distance centre q) = false) →
     ind = ind0 ∧ d = s_minus_one).
Proof using Hord.
  intros Hm Hall Hnum Hrun.
  apply (furthest_scan_inv centre max_ind pts index_map ind0 order []) in Hrun; [|done..|].
  2:{ left. split; [done|]. intros j q Hj. by apply elem_of_nil in Hj. }
  simpl in Hrun.
  assert (Hin : ∀ j q, pts !! j = Some q → j ∈ order).
  { intros j q Hq. apply Hall. by eapply lookup_lt_Some. }
  destruct Hrun as [[[= -> ->] Hlow]
                   |(e & p & before & after & [= -> ->] & Hseen & Hp & Hem & Hpos & Hmax & Hfirst)].
  - split; [|done]. intros (j & q & Hq & Hjm & Hpos).
    rewrite (Hlow j q) in Hpos; [done|by eapply Hin|done..].
  - split.
    + intros _. exists e. split; [done|]. split.
      * exists p. do 2 (split; [done|]). intros j q Hq Hjm.
        apply (Hmax j q); [by eapply Hin|done..].
      * by exists p, before, after.
    + intros Hnone. by rewrite (Hnone e p) in Hpos.
Qed.

(** The scan of lines 145-163, its iterations entering the critical section
    in any order, over distances that are numbers: it returns; if some
    point of cluster [max_ind] is at a distance above [-1.0], it selects one
    of the points of the cluster furthest from the centre, of equally far
    ones the one that arrived first; if none is, [extr_dist_ind] keeps the
    value it had before the scan. *)
Theorem furthest_scan_selects_a_furthest_point
    order centre max_ind pts index_map ind0 :
  number s_minus_one →
  order ≡ₚ seq 0 (length pts) →
  length pts ≤ length index_map →
  (∀ j q, pts !! j = Some q → index_map !! j = Some max_ind →
     number (distance centre q)) →
  ∃ extr_dist extr_dist_ind,
    for_in_order order (furthest_body centre max_ind pts index_map)
      (s_minus_one, ind0) = Returned (extr_dist, extr_dist_ind) ∧
    ((∃ j q, pts !! j = Some q ∧ index_map !! j = Some max_ind ∧
             s_ltb s_minus_one (distance centre q) = true) →
       ∃ e, extr_dist_ind = Some e ∧ furthest pts index_map max_ind centre e ∧
            first_to_arrive order pts index_map max_ind centre e) ∧
    ((∀ j q, pts !! j = Some q → index_map !! j = Some max_ind →
             s_ltb s_minus_one (distance centre q) = false) →
       extr_dist_ind = ind0 ∧ extr_dist = s_minus_one).
Proof using Hord.
  intros Hm Hperm Hlen Hnum.
  assert (Hin : ∀ j, j ∈ order ↔ j < length pts).
  { intros j. rewrite Hperm, elem_of_seq. lia. }
  destruct (furthest_scan_total centre max_ind pts index_map order (s_minus_one, ind0))
    as ([d ind] & Hrun).
  { intros j Hj%Hin. lia. }
  exists d, ind. split; [done|].
  apply (furthest_scan_selection centre max_ind pts index_map ind0 order); [done| |done..].
  intros j Hj. by apply Hin.
Qed.

(** The repair of an empty cluster [i], the scan run in any order: when it
    returns, and the distances to the mean of the largest cluster are
    numbers with one of them above [-1.0], it has moved to [i] one of the
    points of the largest cluster furthest from that mean (of equally far
    ones the one that arrived first), and has taken that point's
    coordinates out of the sum of the largest cluster. *)
Theorem repair_moves_a_furthest_point
    order num_clusters pts i index_map cs point_count ind cnt_max col_max
    index_map' cs' point_count' ind' :
  let max_ind := find_largest num_clusters point_count in
  let mean := vscale col_max (s_recip cnt_max) in
  number s_minus_one →
  order ≡ₚ seq 0 (length pts) →
  point_count !! i = Some 0%N →
  point_count !! max_ind = Some cnt_max →
  cs !! max_ind = Some col_max →
  (∀ j q, pts !! j = Some q → index_map !! j = Some max_ind →
     number (distance mean q)) →
  (∃ j q, pts !! j = Some q ∧ index_map !! j = Some max_ind ∧
          s_ltb s_minus_one (distance mean q) = true) →
  repair_body_in_order order num_clusters pts i (index_map, cs, point_count, ind)
    = Returned (index_map', cs', point_count', ind') →
  ∃ e p, furthest pts index_map max_ind mean e ∧
    first_to_arrive order pts index_map max_ind mean e ∧
    pts !! e = Some p ∧
    ind' = Some e ∧
    index_map' = <[e := i]> index_map ∧
    cs' = <[max_ind := vsub col_max p]> cs.
Proof using Hord.
  intros max_ind mean Hm Hperm Hzero Hcnt Hcol Hnum Hsome Hb.
  unfold repair_body_in_order in Hb. fold max_ind in Hb.
  rewrite (proj2 (get_Returned _ _ _) Hzero) in Hb. cbn [mbind outcome_bind] in Hb.
  rewrite decide_False in Hb by (intros Hne; by apply Hne).
  rewrite (proj2 (get_Returned _ _ _) Hcnt) in Hb. cbn [mbind outcome_bind] in Hb.
  rewrite (proj2 (get_Returned _ _ _) Hcol) in Hb. cbn [mbind outcome_bind] in Hb.
  fold mean in Hb. apply bind_Returned in Hb as ([d ind1] & Hrun & Hb).
  apply bind_Returned in Hb as (e & ->%read_local_Returned & Hb).
  apply bind_Returned in Hb as (m1 & [_ ->]%set_Returned & Hb).
  apply bind_Returned in Hb as (p & Hp%get_Returned & Hb).
  apply bind_Returned in Hb as (cs1 & [_ ->]%set_Returned & Hb).
  apply bind_Returned in Hb as (pc1 & [_ ->]%set_Returned & Hb).
  apply bind_Returned in Hb as (cnt1 & _ & Hb).
  apply bind_Returned in Hb as (pc2 & [_ ->]%set_Returned & Hb).
  injection Hb as <- <- <- <-.
  destruct (furthest_scan_selection mean max_ind pts index_map ind order d (Some e))
    as [Hsel _]; [done| |done..|].
  { intros j Hj. rewrite Hperm, elem_of_seq. lia. }
  destruct (Hsel Hsome) as (e' & [= <-] & Hfurthest & Hfirst).
  by exists e, p.
Qed.

End Furthest.

End Engine.

Arguments KMeans T : clear implicits.
Arguments DistAdaptor T : clear implicits.

(** * The engine on [float] *)

Import Float32.

(** ** [<] on [float] *)

Ltac compare_cases :=
  repeat match goal with
  | |- context [Z.compare ?a ?b] => destruct (Z.compare_spec a b)
  | |- context [Pos.compare_cont Eq ?a ?b] =>
      change (Pos.compare_cont Eq a b) with (Pos.compare a b)
  | |- context [Pos.compare ?a ?b] => destruct (Pos.compare_spec a b)
  end.

Lemma SFltb_irrefl x : number x → SFltb x x = false.
Proof.
  unfold SFltb, SFcompare. destruct x as [s|s| |s m e]; try destruct s; simpl;
    try easy; intros _; compare_cases; simpl; try easy; lia.
Qed.

Lemma SFltb_trans x y z :
  number x → number y → number z →
  SFltb x y = true → SFltb y z = true → SFltb x z = true.
Proof.
  unfold SFltb, SFcompare.
  destruct x as [s|s| |s m e], y as [s'|s'| |s' m' e'], z as [s''|s''| |s'' m'' e''];
    try destruct s; try destruct s'; try destruct s''; simpl; try easy;
    intros _ _ _; compare_cases; simpl; try easy; lia.
Qed.

Lemma SFltb_below x y z :
  number x → number y → number z →
  SFltb x y = true → SFltb z y = false → SFltb x z = true.
Proof.
  unfold SFltb, SFcompare.
  destruct x as [s|s| |s m e], y as [s'|s'| |s' m' e'], z as [s''|s''| |s'' m'' e''];
    try destruct s; try destruct s'; try destruct s''; simpl; try easy;
    intros _ _ _; compare_cases; simpl; try easy; lia.
Qed.

#[global] Instance float32_order : ScalarOrder spec_float number.
Proof.
  split.
  - apply SFltb_irrefl.
  - apply SFltb_trans.
  - apply SFltb_below.
  - exact I.
Qed.

(** ** The scenarios of the design document *)

(** C1.  The empty-cluster scenario: three points at the origin, the
    centroids (0,0) and (10,10), [max_iter = 1].  The run returns, with no
    division at all: the first pass stores cluster 0 for every point, which
    is what [resize] had written, so that the flag stays [true] and the
    loop ends before the repair.  No point is moved, the iteration count is
    0 and the bucket sizes are 3 and 0. *)
Theorem empty_cluster_scenario_ends_at_first_pass :
  assignment_step L2 no_tree false two_centroids origin_points [0; 0; 0] None
  = Returned ([0; 0; 0], true, Some 0) ∧
  cluster_with_centroids L2 no_tree two_centroids 1 epsilon false (KMeans_ctor origin_points)
  = Returned (mkKMeans origin_points two_centroids [[0; 1; 2]; []] [0; 0; 0] 0) ∧
  length <$> [[0; 1; 2]; []] = [3; 0] ∧
  [3; 0] ≠ [2; 1].
Proof. repeat split; try (vm_compute; reflexivity). discriminate. Qed.

(** The same centroids with the three points at (10,10): the first pass
    changes the map, cluster 0 is found empty and repaired with point 0,
    and its centroid becomes the zero vector, not (10,10). *)
Lemma repair_scenario :
  cluster_with_centroids L2 no_tree two_centroids 1 epsilon false (KMeans_ctor far_points)
  = Returned (mkKMeans far_points two_centroids [[0]; [1; 2]] [0; 1; 1] 1).
Proof. vm_compute. reflexivity. Qed.

(** The properties below are about a call on a freshly constructed object.
    A second call on the same object starts from the map the first call
    left, and [resize] keeps the buckets of the first call: the indices are
    appended to them. *)
Lemma second_call_appends_to_buckets :
  cluster_with_centroids L2 no_tree two_centroids 1 epsilon false (KMeans_ctor far_points)
  ≫= cluster_with_centroids L2 no_tree two_centroids 1 epsilon false
  = Returned (mkKMeans far_points two_centroids [[0; 0]; [1; 2; 1; 2]] [0; 1; 1] 1).
Proof. vm_compute. reflexivity. Qed.

(** ** Inputs on which a claim of the design document fails *)

(** One point and two explicit centroids, the point at the second one.
    Cluster 0 is repaired with the point, cluster 1 is then repaired with
    the same point, and cluster 0 is divided by a count of 0. *)
Lemma more_centroids_than_points_update :
  update_centroids (T := spec_float) two_centroids one_point [1]
  = Returned ([pt [0; 0]%Z; pt [10; 10]%Z], [0; 1]%N) ∧
  update_step L2 (mkKMeans one_point two_centroids [] [1] 0) (Some 1)
  = Returned (mkKMeans one_point
                [[S754_infinity true; S754_infinity true]; pt [0; 0]%Z] [] [1] 1,
              [0; 1]%N, Some 0).
Proof. split; vm_compute; reflexivity. Qed.

Lemma more_centroids_than_points_run :
  cluster_with_centroids L2 no_tree two_centroids 1 epsilon false (KMeans_ctor one_point)
  = Returned (mkKMeans one_point
                [[S754_infinity true; S754_infinity true]; pt [0; 0]%Z] [[]; [0]] [1] 1).
Proof. vm_compute. reflexivity. Qed.

(** Against C3: cluster 0 is found empty by the repair loop and repaired,
    and its centroid after the division is not the zero vector. *)
Lemma repaired_centroid_not_zero_counterexample :
  ∃ sums point_count km' point_count' ind',
    update_centroids (T := spec_float) two_centroids one_point [1]
    = Returned (sums, point_count) ∧
    point_count !! 0 = Some 0%N ∧
    update_step L2 (mkKMeans one_point two_centroids [] [1] 0) (Some 1)
    = Returned (km', point_count', ind') ∧
    cluster_centroids_ km' !! 0 = Some [S754_infinity true; S754_infinity true] ∧
    [S754_infinity true; S754_infinity true] ≠ vzero (pt [0; 0]%Z).
Proof.
  destruct more_centroids_than_points_update as [Hacc Hstep].
  eexists _, _, _, _, _. split; [exact Hacc|]. split; [done|].
  split; [exact Hstep|]. split; [done|]. discriminate.
Qed.

(** Against C4: [cluster(0, ...)] on an empty point set returns, and on
    one point it is undefined; neither is an [InvalidArgument]. *)
Lemma zero_clusters_counterexample :
  cluster L2 no_tree draws 0 100 epsilon false (KMeans_ctor [])
  = Returned (mkKMeans [] [] [] [] 0) ∧
  cluster L2 no_tree draws 0 100 epsilon false (KMeans_ctor one_point)
  = Undefined UninitializedRead ∧
  cluster L2 no_tree draws 0 100 epsilon false (KMeans_ctor [])
  ≠ Raised InvalidArgument.
Proof. repeat split; try (vm_compute; reflexivity). discriminate. Qed.

(** Against C5: with no point the run returns instead of failing, and with
    one point and two centroids, where no repair can leave both clusters
    non-empty, the run returns after dividing by the count 0 of cluster 0. *)
Lemma invariant_violation_counterexample :
  cluster_with_centroids L2 no_tree two_centroids 100 epsilon false (KMeans_ctor [])
  = Returned (mkKMeans [] two_centroids [[]; []] [] 0) ∧
  cluster_with_centroids L2 no_tree two_centroids 100 epsilon false (KMeans_ctor [])
  ≠ Raised InternalInvariantViolation ∧
  (∃ km' ind',
     update_step L2 (mkKMeans one_point two_centroids [] [1] 0) (Some 1)
     = Returned (km', [0; 1]%N, ind') ∧
     s_recip 0 = S754_infinity false) ∧
  cluster_with_centroids L2 no_tree two_centroids 1 epsilon false (KMeans_ctor one_point)
  ≠ Raised InternalInvariantViolation.
Proof.
  split; [vm_compute; reflexivity|]. split; [vm_compute; discriminate|].
  split; [|vm_compute; discriminate].
  eexists _, _. split; [apply more_centroids_than_points_update|]. vm_compute. reflexivity.
Qed.

(** Against C6: two explicit centroids on one point give two clusters. *)
Lemma explicit_centroids_counterexample :
  ∃ st,
    cluster_with_centroids L2 no_tree two_centroids 1 epsilon false (KMeans_ctor one_point)
    = Returned st ∧
    getNumberOfClusters st = 2 ∧ length one_point = 1 ∧
    ¬ getNumberOfClusters st ≤ length one_point.
Proof.
  eexists. split; [apply more_centroids_than_points_run|].
  split; [done|]. split; [done|]. vm_compute. lia.
Qed.

(** Against C8: in the same run, of one iteration on one point, there are
    two buckets and not [min(2, 1)]. *)
Lemma bucket_count_counterexample :
  ∃ st,
    cluster_with_centroids L2 no_tree two_centroids 1 epsilon false (KMeans_ctor one_point)
    = Returned st ∧
    1 ≤ length one_point ∧ getPerformedIterationsCount st = 1 ∧
    length (getClusterPointIndices st) = 2 ∧
    length (getClusterPointIndices st) ≠ length two_centroids `min` length one_point.
Proof.
  eexists. split; [apply more_centroids_than_points_run|].
  split; [vm_compute; lia|]. split; [done|]. split; [done|]. vm_compute. lia.
Qed.

(** Against C10: with [max_iter = 0] and no cluster, the bucket loop
    indexes an empty vector of buckets. *)
Lemma max_iter_zero_counterexample :
  cluster L2 no_tree draws 0 0 epsilon false (KMeans_ctor one_point)
  = Undefined OutOfRange ∧
  cluster_with_centroids L2 no_tree [] 0 epsilon false (KMeans_ctor one_point)
  = Undefined OutOfRange.
Proof. split; vm_compute; reflexivity. Qed.

(** C7 as stated fails for finite points: both squared distances of the
    second point of [overflow_points] overflow to [+infinity], none is
    below the initial [extr_dist], and the pass stores the cluster selected
    for the point before it, cluster 1, where the nearest centroid at the
    lowest index is cluster 0.  With that point first, [extr_dist_ind] is
    read before any assignment; so it is for a point with a NaN
    coordinate. *)
Lemma brute_force_nearest_counterexample :
  assignment_step L2 no_tree false two_centroids overflow_points [0; 0] None
  = Returned ([1; 1], false, Some 1) ∧
  overflow_points !! 1 = Some (pt [3 * 10 ^ 38; 0]%Z) ∧
  distance L2 (pt [0; 0]%Z) (pt [3 * 10 ^ 38; 0]%Z) = s_infinity ∧
  distance L2 (pt [10; 10]%Z) (pt [3 * 10 ^ 38; 0]%Z) = s_infinity ∧
  nearest_lowest L2 two_centroids (pt [3 * 10 ^ 38; 0]%Z) 0 ∧
  ¬ nearest_lowest L2 two_centroids (pt [3 * 10 ^ 38; 0]%Z) 1 ∧
  assignment_step L2 no_tree false two_centroids (reverse overflow_points) [0; 0] None
  = Undefined UninitializedRead ∧
  assignment_step L2 no_tree false two_centroids [[S754_nan; S754_zero false]] [0] None
  = Undefined UninitializedRead.
Proof.
  split; [vm_compute; reflexivity|]. split; [vm_compute; reflexivity|].
  split; [vm_compute; reflexivity|]. split; [vm_compute; reflexivity|].
  split; [|split; [|split; vm_compute; reflexivity]].
  - exists (pt [0; 0]%Z). split; [reflexivity|]. split.
    + intros [|[|k]] c' Hc'; [injection Hc' as <-; vm_compute; reflexivity..|].
      discriminate Hc'.
    + intros k c' Hk. lia.
  - intros (c & Hc & _ & Hlow). injection Hc as <-.
    specialize (Hlow 0 (pt [0; 0]%Z) ltac:(lia) eq_refl).
    vm_compute in Hlow. discriminate Hlow.
Qed.

(** ** The general properties at concrete inputs *)

Lemma first_pass_all_zero_ends_run_witness :
  assignment_step L2 no_tree false two_centroids origin_points
    (replicate (length origin_points) 0) None
  = Returned ([0; 0; 0], true, Some 0) ∧
  (∀ i, i < length origin_points → [0; 0; 0] !! i = Some 0) ∧
  cluster_ L2 no_tree 1 epsilon false (mkKMeans origin_points two_centroids [] [] 0)
  = Returned (mkKMeans origin_points two_centroids
                (all_in_bucket_zero (length two_centroids) (length origin_points))
                (replicate (length origin_points) 0) 0).
Proof.
  assert (Hpass : assignment_step L2 no_tree false two_centroids origin_points
                    (replicate (length origin_points) 0) None
                  = Returned ([0; 0; 0], true, Some 0)) by (vm_compute; reflexivity).
  assert (Hzero : ∀ i, i < length origin_points → [0; 0; 0] !! i = Some 0).
  { intros [|[|[|i]]] Hi; try reflexivity. vm_compute in Hi. lia. }
  split; [exact Hpass|]. split; [exact Hzero|].
  apply (first_pass_all_zero_ends_run L2 no_tree origin_points two_centroids 0 1 epsilon
           false [0; 0; 0] true (Some 0) ltac:(discriminate) Hpass Hzero).
Defined.

Lemma repaired_cluster_gets_zero_centroid_witness :
  s_mul (S754_zero false) (s_recip 1) = S754_zero false ∧
  length two_centroids ≤ length far_points ∧
  update_step L2 (mkKMeans far_points two_centroids [] [1; 1; 1] 0) (Some 1)
  = Returned (mkKMeans far_points two_centroids [] [0; 1; 1] 1, [1; 2]%N, Some 0) ∧
  ∃ e p max_ind col_max cnt_max c_i,
    repair_body L2 2 far_points 0
      ([1; 1; 1], [pt [0; 0]%Z; pt [30; 30]%Z], [0; 3]%N, Some 1)
    = Returned (<[e := 0]> [1; 1; 1],
                <[max_ind := vsub col_max p]> [pt [0; 0]%Z; pt [30; 30]%Z],
                <[0 := 1%N]> (<[max_ind := (cnt_max - 1)%N]> [0; 3]%N),
                Some e) ∧
    max_ind ≠ 0 ∧
    far_points !! e = Some p ∧
    [pt [0; 0]%Z; pt [30; 30]%Z] !! max_ind = Some col_max ∧
    [0; 3]%N !! max_ind = Some cnt_max ∧
    two_centroids !! 0 = Some c_i ∧
    [pt [0; 0]%Z; pt [30; 30]%Z] !! 0 = Some (vzero c_i) ∧
    <[max_ind := vsub col_max p]> [pt [0; 0]%Z; pt [30; 30]%Z] !! 0 = Some (vzero c_i) ∧
    [1; 2]%N !! 0 = Some 1%N ∧
    two_centroids !! 0 = Some (vzero c_i).
Proof.
  split; [vm_compute; reflexivity|]. split; [vm_compute; lia|].
  split; [vm_compute; reflexivity|].
  apply (repaired_cluster_gets_zero_centroid L2
           (mkKMeans far_points two_centroids [] [1; 1; 1] 0) (Some 1)
           (mkKMeans far_points two_centroids [] [0; 1; 1] 1) [1; 2]%N (Some 0) 0
           [pt [0; 0]%Z; pt [30; 30]%Z] [0; 3]%N
           [1; 1; 1] [pt [0; 0]%Z; pt [30; 30]%Z] [0; 3]%N (Some 1)).
  - vm_compute. reflexivity.
  - vm_compute. lia.
  - vm_compute. reflexivity.
  - vm_compute. reflexivity.
  - vm_compute. reflexivity.
  - reflexivity.
  - vm_compute. lia.
  - reflexivity.
Defined.

Lemma zero_clusters_not_rejected_witness :
  cluster L2 no_tree draws 0 100 epsilon false (KMeans_ctor line_points)
  ≠ Raised InvalidArgument.
Proof.
  apply (zero_clusters_not_rejected L2 no_tree draws 100 epsilon false).
Defined.

Lemma no_points_no_division_witness :
  cluster_ L2 no_tree 100 epsilon false (mkKMeans [] two_centroids [] [] 0)
  = Returned (mkKMeans [] two_centroids (replicate (length two_centroids) []) [] 0).
Proof.
  apply (no_points_no_division L2 no_tree two_centroids 0 100 epsilon false).
Defined.

Lemma requested_count_is_clamped_witness :
  ∃ st,
    cluster L2 no_tree draws 1000 100 epsilon false (KMeans_ctor line_points) = Returned st ∧
    getNumberOfClusters st = 5 ∧
    getNumberOfClusters st = 1000 `min` length line_points ∧
    getNumberOfClusters st ≤ length line_points.
Proof.
  eexists. split; [vm_compute; reflexivity|]. split; [reflexivity|].
  apply (proj1 (proj2 (requested_count_is_clamped L2 no_tree line_points 100 epsilon false _))
           draws 1000).
  vm_compute. reflexivity.
Defined.

Lemma brute_force_assigns_nearest_witness :
  length line_points ≤ length [0; 0; 0; 0; 0] ∧
  ∃ index_map' unchanged ind',
    assignment_step L2 no_tree false two_centroids line_points [0; 0; 0; 0; 0] None
    = Returned (index_map', unchanged, ind') ∧
    (∀ i p, line_points !! i = Some p →
       ∃ j, index_map' !! i = Some j ∧ nearest_lowest L2 two_centroids p j) ∧
    (unchanged = false ↔
     ∃ i, i < length line_points ∧ index_map' !! i ≠ [0; 0; 0; 0; 0] !! i).
Proof.
  split; [vm_compute; lia|].
  apply (brute_force_assigns_nearest L2 no_tree number two_centroids line_points
           [0; 0; 0; 0; 0] None).
  - vm_compute. lia.
  - assert (Hcs : ∀ c, c ∈ two_centroids → c = pt [0; 0]%Z ∨ c = pt [10; 10]%Z).
    { intros c Hc. apply elem_of_cons in Hc as [->|Hc]; [by left|].
      apply list_elem_of_singleton in Hc as ->. by right. }
    assert (Hfirst : pt [0; 0]%Z ∈ two_centroids) by apply list_elem_of_here.
    intros i p Hp.
    do 5 (destruct i as [|i];
          [injection Hp as <-; split;
           [intros c [->| ->]%Hcs; vm_compute; exact I
           |exists (pt [0; 0]%Z); split; [exact Hfirst|vm_compute; reflexivity]]|]).
    discriminate Hp.
Defined.

Lemma buckets_partition_point_indices_witness :
  ∃ st,
    cluster_with_centroids L2 no_tree two_centroids 1 epsilon false (KMeans_ctor far_points)
    = Returned st ∧
    1 ≤ length far_points ∧ getPerformedIterationsCount st = 1 ∧
    exact_partition (length far_points) (getClusterPointIndices st) ∧
    length (getClusterPointIndices st) = getNumberOfClusters st ∧
    getNumberOfClusters st = length two_centroids.
Proof.
  eexists. split; [vm_compute; reflexivity|]. split; [vm_compute; lia|].
  split; [reflexivity|].
  apply (proj1 (buckets_partition_point_indices L2 no_tree far_points 1 epsilon false _)
           two_centroids).
  vm_compute. reflexivity.
Defined.

Lemma unchanged_assignments_end_the_loop_witness :
  assignment_step L2 no_tree false two_centroids origin_points [0; 0; 0] None
  = Returned ([0; 0; 0], true, Some 0) ∧
  true = true ∧
  ∃ km',
    while_loop L2 no_tree 1 epsilon (s_mul epsilon epsilon) false
      (mkKMeans origin_points two_centroids [] [0; 0; 0] 0) None
    = Returned (km', Some 0) ∧
    cluster_centroids_ km' = two_centroids ∧
    iteration_count_ km' = 0 ∧
    km' = mkKMeans origin_points two_centroids [] [0; 0; 0] 0.
Proof.
  assert (Hpass : assignment_step L2 no_tree false two_centroids origin_points [0; 0; 0] None
                  = Returned ([0; 0; 0], true, Some 0)) by (vm_compute; reflexivity).
  split; [exact Hpass|].
  exact (unchanged_assignments_end_the_loop L2 no_tree 0 epsilon (s_mul epsilon epsilon)
           false (mkKMeans origin_points two_centroids [] [0; 0; 0] 0) None true (Some 0)
           Hpass).
Defined.

Lemma max_iter_zero_completes_witness :
  two_centroids ≠ [] ∧
  cluster_with_centroids L2 no_tree two_centroids 0 epsilon false (KMeans_ctor far_points)
  = Returned (mkKMeans far_points two_centroids
                (all_in_bucket_zero (length two_centroids) (length far_points))
                (replicate (length far_points) 0) 0).
Proof.
  assert (Hcs : two_centroids ≠ []) by (vm_compute; discriminate).
  split; [exact Hcs|].
  exact (proj1 (max_iter_zero_completes L2 no_tree far_points epsilon false)
           two_centroids Hcs).
Defined.

(** ** The further properties at concrete inputs *)

Lemma cluster__keeps_shape_witness :
  ∃ st,
    cluster_ L2 no_tree 100 epsilon false
      (mkKMeans line_points (pt <$> [[4; 0]; [0; 0]]%Z) [] [] 0) = Returned st ∧
    data_map_ st = data_map_ (mkKMeans line_points (pt <$> [[4; 0]; [0; 0]]%Z) [] [] 0) ∧
    getNumberOfClusters st
    = getNumberOfClusters (mkKMeans line_points (pt <$> [[4; 0]; [0; 0]]%Z) [] [] 0) ∧
    length (getClusterIndexMap st)
    = length (data_map_ (mkKMeans line_points (pt <$> [[4; 0]; [0; 0]]%Z) [] [] 0)) ∧
    length (getClusterPointIndices st)
    = getNumberOfClusters (mkKMeans line_points (pt <$> [[4; 0]; [0; 0]]%Z) [] [] 0) ∧
    getPerformedIterationsCount st ≤ 100.
Proof.
  eexists. split; [vm_compute; reflexivity|].
  apply (cluster__keeps_shape L2 no_tree 100 epsilon false
           (mkKMeans line_points (pt <$> [[4; 0]; [0; 0]]%Z) [] [] 0)).
  vm_compute. reflexivity.
Defined.

Lemma buckets_list_the_members_witness :
  ∃ st,
    cluster_ L2 no_tree 100 epsilon false
      (mkKMeans line_points (pt <$> [[4; 0]; [0; 0]]%Z) [[9]] [] 0) = Returned st ∧
    getClusterPointIndices st !! 0
    = Some ([9] ++ members (getClusterIndexMap st) 0 (length line_points)) ∧
    getClusterPointIndices st !! 1
    = Some ([] ++ members (getClusterIndexMap st) 1 (length line_points)).
Proof.
  eexists. split; [vm_compute; reflexivity|].
  match goal with
  | |- getClusterPointIndices ?st !! 0 = _ ∧ _ =>
      assert (Hrun : cluster_ L2 no_tree 100 epsilon false
                       (mkKMeans line_points (pt <$> [[4; 0]; [0; 0]]%Z) [[9]] [] 0)
                     = Returned st) by (vm_compute; reflexivity)
  end.
  pose proof (proj1 (buckets_list_the_members L2 no_tree 100 epsilon false
                       (mkKMeans line_points (pt <$> [[4; 0]; [0; 0]]%Z) [[9]] [] 0) _
                       Hrun)) as Hbuckets.
  split; [apply (Hbuckets 0 [9])|apply (Hbuckets 1 [])]; reflexivity.
Defined.

Lemma find_largest_first_largest_witness :
  0 < 3 ∧
  find_largest 3 [1; 4; 4]%N = 1 ∧
  find_largest 3 [1; 4; 4]%N < 3 ∧
  (∀ k, k < 3 →
     ([1; 4; 4] !!! k ≤ [1; 4; 4] !!! find_largest 3 [1; 4; 4])%N) ∧
  (∀ k, k < find_largest 3 [1; 4; 4]%N →
     ([1; 4; 4] !!! k < [1; 4; 4] !!! find_largest 3 [1; 4; 4])%N).
Proof.
  split; [lia|]. split; [reflexivity|].
  apply (find_largest_first_largest 3 [1; 4; 4]%N). lia.
Defined.

Lemma update_centroids_sums_and_counts_witness :
  (N.of_nat (length line_points) < 2 ^ size_bits)%N ∧
  update_centroids two_centroids line_points [0; 0; 0; 1; 1]
  = Returned (pt <$> [[3; 0]; [7; 0]]%Z, [3; 2]%N) ∧
  members [0; 0; 0; 1; 1] 1 (length line_points) = [3; 4] ∧
  ∀ c col, two_centroids !! c = Some col →
    [3; 2]%N !! c
    = Some (N.of_nat (length (members [0; 0; 0; 1; 1] c (length line_points)))) ∧
    (pt <$> [[3; 0]; [7; 0]]%Z) !! c
    = Some (sum_of_points line_points (vzero col)
              (members [0; 0; 0; 1; 1] c (length line_points))).
Proof.
  split; [vm_compute; reflexivity|]. split; [vm_compute; reflexivity|].
  split; [vm_compute; reflexivity|].
  apply (update_centroids_sums_and_counts two_centroids line_points [0; 0; 0; 1; 1]).
  - vm_compute. reflexivity.
  - vm_compute. reflexivity.
Defined.

Lemma update_step_computes_means_witness :
  ∃ cs' point_count,
    update_step L2 (mkKMeans line_points two_centroids [] [0; 0; 0; 1; 1] 0) None
    = Returned (mkKMeans line_points cs' [] [0; 0; 0; 1; 1] 1, point_count, None) ∧
    length cs' = length two_centroids ∧
    ∀ c col, two_centroids !! c = Some col →
      let idxs := members [0; 0; 0; 1; 1] c (length line_points) in
      point_count !! c = Some (N.of_nat (length idxs)) ∧
      cs' !! c = Some (vscale (sum_of_points line_points (vzero col) idxs)
                         (s_recip (N.of_nat (length idxs)))).
Proof.
  apply (update_step_computes_means L2
           (mkKMeans line_points two_centroids [] [0; 0; 0; 1; 1] 0) None).
  - vm_compute. reflexivity.
  - intros i Hi.
    do 5 (destruct i as [|i]; [eexists; split; [reflexivity|vm_compute; lia]|]).
    vm_compute in Hi. lia.
  - intros c Hc. destruct c as [|[|c]]; [vm_compute; discriminate..|].
    vm_compute in Hc. lia.
Defined.

Lemma repair_leaves_no_empty_cluster_witness :
  length two_centroids ≤ length line_points ∧
  update_centroids two_centroids line_points [0; 0; 0; 0; 0]
  = Returned (pt <$> [[10; 0]; [0; 0]]%Z, [5; 0]%N) ∧
  repair_empty_clusters L2 (length two_centroids) line_points
    ([0; 0; 0; 0; 0], pt <$> [[10; 0]; [0; 0]]%Z, [5; 0]%N, Some 0)
  = Returned ([1; 0; 0; 0; 0], pt <$> [[10; 0]; [0; 0]]%Z, [4; 1]%N, Some 0) ∧
  length [4; 1]%N = length two_centroids ∧
  sumN [4; 1]%N = N.of_nat (length line_points) ∧
  ∀ c cnt, [4; 1]%N !! c = Some cnt → (1 ≤ cnt)%N.
Proof.
  split; [vm_compute; lia|]. split; [vm_compute; reflexivity|].
  split; [vm_compute; reflexivity|].
  apply (repair_leaves_no_empty_cluster L2 two_centroids line_points [0; 0; 0; 0; 0]
           (Some 0) (pt <$> [[10; 0]; [0; 0]]%Z) [5; 0]%N
           [1; 0; 0; 0; 0] (pt <$> [[10; 0]; [0; 0]]%Z) [4; 1]%N (Some 0)).
  - vm_compute. lia.
  - vm_compute. reflexivity.
  - vm_compute. reflexivity.
  - vm_compute. reflexivity.
Defined.

Lemma while_loop_ends_for_a_reason_witness :
  ∃ km',
    while_loop L2 no_tree 100 epsilon (s_mul epsilon epsilon) false
      (mkKMeans line_points two_centroids [] [1; 1; 1; 1; 1] 0) None
    = Returned (km', Some 0) ∧
    iteration_count_ km' = 2 ∧
    ∃ k km_k ind_k,
      k ≤ 100 ∧
      iterations L2 no_tree k false
        (mkKMeans line_points two_centroids [] [1; 1; 1; 1; 1] 0) None
      = Returned (km_k, ind_k) ∧
      iteration_count_ km_k = 0 + k ∧
      ((k = 100 ∧ km' = km_k ∧ Some 0 = ind_k) ∨
       (k < 100 ∧ km' = km_k ∧
        assignment_step L2 no_tree false (cluster_centroids_ km_k) (data_map_ km_k)
          (cluster_index_map_ km_k) ind_k
        = Returned (cluster_index_map_ km_k, true, Some 0)) ∨
       (k < 100 ∧ s_ltb s_zero epsilon = true ∧
        iteration L2 no_tree false km_k ind_k = Returned (km', Some 0) ∧
        iteration_count_ km' = 0 + S k ∧
        ∃ m,
          maxCoeff (squaredNorm <$>
                    zip_with vsub (cluster_centroids_ km') (cluster_centroids_ km_k))
          = Returned m ∧
          s_ltb m (s_mul epsilon epsilon) = true)).
Proof.
  eexists. split; [vm_compute; reflexivity|]. split; [reflexivity|].
  apply (while_loop_ends_for_a_reason L2 no_tree 100 epsilon (s_mul epsilon epsilon) false
           (mkKMeans line_points two_centroids [] [1; 1; 1; 1; 1] 0) None).
  vm_compute. reflexivity.
Defined.

Lemma assignment_step_stores_selection_witness :
  assignment_step L2 no_tree false two_centroids line_points [1; 1; 1; 1; 1] None
  = Returned ([0; 0; 0; 0; 0], false, Some 0) ∧
  ∀ i p, line_points !! i = Some p →
    ∃ e, selected L2 no_tree false two_centroids p = Some e ∧
         [0; 0; 0; 0; 0] !! i = Some e.
Proof.
  split; [vm_compute; reflexivity|].
  apply (assignment_step_stores_selection L2 no_tree false two_centroids line_points
           [1; 1; 1; 1; 1] None [0; 0; 0; 0; 0] false (Some 0)).
  - intros _ i p Hp. exists (pt [0; 0]%Z). split; [apply list_elem_of_here|].
    do 5 (destruct i as [|i]; [injection Hp as <-; vm_compute; reflexivity|]).
    discriminate Hp.
  - vm_compute. reflexivity.
Defined.

Lemma assignment_step_idempotent_witness :
  assignment_step L2 no_tree false two_centroids line_points [1; 1; 1; 1; 1] None
  = Returned ([0; 0; 0; 0; 0], false, Some 0) ∧
  ∃ ind3,
    assignment_step L2 no_tree false two_centroids line_points [0; 0; 0; 0; 0] None
    = Returned ([0; 0; 0; 0; 0], true, ind3).
Proof.
  split; [vm_compute; reflexivity|].
  apply (assignment_step_idempotent L2 no_tree false two_centroids line_points
           [1; 1; 1; 1; 1] None [0; 0; 0; 0; 0] false (Some 0) None).
  - intros _ i p Hp. exists (pt [0; 0]%Z). split; [apply list_elem_of_here|].
    do 5 (destruct i as [|i]; [injection Hp as <-; vm_compute; reflexivity|]).
    discriminate Hp.
  - vm_compute. reflexivity.
Defined.

Lemma furthest_scan_selects_a_furthest_point_witness :
  number s_minus_one ∧
  [4; 2; 0; 3; 1] ≡ₚ seq 0 (length line_points) ∧
  length line_points ≤ length [0; 0; 0; 0; 0] ∧
  for_in_order [4; 2; 0; 3; 1]
    (furthest_body L2 (pt [2; 0]%Z) 0 line_points [0; 0; 0; 0; 0]) (s_minus_one, None)
  = Returned (of_Z 4, Some 4) ∧
  ∃ extr_dist extr_dist_ind,
    for_in_order [4; 2; 0; 3; 1]
      (furthest_body L2 (pt [2; 0]%Z) 0 line_points [0; 0; 0; 0; 0]) (s_minus_one, None)
    = Returned (extr_dist, extr_dist_ind) ∧
    ((∃ j q, line_points !! j = Some q ∧ [0; 0; 0; 0; 0] !! j = Some 0 ∧
             s_ltb s_minus_one (distance L2 (pt [2; 0]%Z) q) = true) →
       ∃ e, extr_dist_ind = Some e ∧
            furthest L2 line_points [0; 0; 0; 0; 0] 0 (pt [2; 0]%Z) e ∧
            first_to_arrive L2 [4; 2; 0; 3; 1] line_points [0; 0; 0; 0; 0] 0
              (pt [2; 0]%Z) e) ∧
    ((∀ j q, line_points !! j = Some q → [0; 0; 0; 0; 0] !! j = Some 0 →
             s_ltb s_minus_one (distance L2 (pt [2; 0]%Z) q) = false) →
       extr_dist_ind = None ∧ extr_dist = s_minus_one).
Proof.
  assert (Hperm : [4; 2; 0; 3; 1] ≡ₚ seq 0 (length line_points)).
  { apply NoDup_Permutation.
    - apply (bool_decide_unpack _). vm_compute. exact I.
    - apply NoDup_seq.
    - intros j. rewrite elem_of_seq, !elem_of_cons, elem_of_nil. vm_compute length. lia. }
  split; [vm_compute; exact I|]. split; [exact Hperm|]. split; [vm_compute; lia|].
  split; [vm_compute; reflexivity|].
  apply (furthest_scan_selects_a_furthest_point L2 number [4; 2; 0; 3; 1] (pt [2; 0]%Z) 0
           line_points [0; 0; 0; 0; 0] None).
  - vm_compute. exact I.
  - exact Hperm.
  - vm_compute. lia.
  - intros j q Hq _.
    do 5 (destruct j as [|j]; [injection Hq as <-; vm_compute; exact I|]).
    discriminate Hq.
Defined.

Lemma repair_moves_a_furthest_point_witness :
  [4; 2; 0; 3; 1] ≡ₚ seq 0 (length line_points) ∧
  repair_body_in_order L2 [4; 2; 0; 3; 1] 2 line_points 1
    ([0; 0; 0; 0; 0], pt <$> [[10; 0]; [0; 0]]%Z, [5; 0]%N, Some 3)
  = Returned ([0; 0; 0; 0; 1], pt <$> [[6; 0]; [0; 0]]%Z, [4; 1]%N, Some 4) ∧
  ∃ e p,
    furthest L2 line_points [0; 0; 0; 0; 0] (find_largest 2 [5; 0]%N)
      (vscale (pt [10; 0]%Z) (s_recip 5)) e ∧
    first_to_arrive L2 [4; 2; 0; 3; 1] line_points [0; 0; 0; 0; 0]
      (find_largest 2 [5; 0]%N) (vscale (pt [10; 0]%Z) (s_recip 5)) e ∧
    line_points !! e = Some p ∧
    Some 4 = Some e ∧
    [0; 0; 0; 0; 1] = <[e := 1]> [0; 0; 0; 0; 0] ∧
    pt <$> [[6; 0]; [0; 0]]%Z
    = <[find_largest 2 [5; 0]%N := vsub (pt [10; 0]%Z) p]> (pt <$> [[10; 0]; [0; 0]]%Z).
Proof.
  assert (Hperm : [4; 2; 0; 3; 1] ≡ₚ seq 0 (length line_points)).
  { apply NoDup_Permutation.
    - apply (bool_decide_unpack _). vm_compute. exact I.
    - apply NoDup_seq.
    - intros j. rewrite elem_of_seq, !elem_of_cons, elem_of_nil. vm_compute length. lia. }
  split; [exact Hperm|]. split; [vm_compute; reflexivity|].
  apply (repair_moves_a_furthest_point L2 number [4; 2; 0; 3; 1] 2 line_points 1
           [0; 0; 0; 0; 0] (pt <$> [[10; 0]; [0; 0]]%Z) [5; 0]%N (Some 3) 5%N (pt [10; 0]%Z)
           [0; 0; 0; 0; 1] (pt <$> [[6; 0]; [0; 0]]%Z) [4; 1]%N (Some 4)).
  - vm_compute. exact I.
  - exact Hperm.
  - reflexivity.
  - reflexivity.
  - reflexivity.
  - intros j q Hq _.
    do 5 (destruct j as [|j]; [injection Hq as <-; vm_compute; exact I|]).
    discriminate Hq.
  - exists 0, (pt [0; 0]%Z). split; [reflexivity|]. split; [reflexivity|].
    vm_compute. reflexivity.
  - vm_compute. reflexivity.
Defined.
